(** * KardiaMobile 1-lead ECG: from PDF vector paths to EDF samples

    A shallow embedding of [kardiamobile-1l-ecg-convert-pdf-to-edf.py]:
    the baseline locator [extract_baselines], the waveform extractor
    [extract_ecg_waveform_rows], the voltage conversion
    [points_to_voltage] and the driver [main].

    Conventions of the embedding.
    - A Python float is an exact rational ([Q]); rounding, infinities other
      than the [float("inf")] sentinel, and NaN are outside the model.
    - A Python exception is a value of [exn]; fallible code lives in [res].
    - [print] and the calls on the EDF writer are recorded, in program
      order, in a trace of [event]s. *)

From Stdlib Require Import QArith Qabs ZArith List String Lia Lqa.
From Stdlib Require Import Sorting.Sorted Sorting.Permutation.
From stdpp Require Import gmap.
Import ListNotations.

(* ================================================================== *)
(** ** Python runtime: exceptions and short-circuit connectives *)

Inductive exn : Type :=
| TypeError
| IndexError
| KeyError
| ValueError
| ZeroDivisionError
| RuntimeError (msg : string).

Inductive res (A : Type) : Type :=
| Ok (a : A)
| Raise (e : exn).
Arguments Ok {A} a.
Arguments Raise {A} e.

Definition rbind {A B} (m : res A) (k : A -> res B) : res B :=
  match m with
  | Ok a => k a
  | Raise e => Raise e
  end.

Notation "'let?' x ':=' m 'in' k" := (rbind m (fun x => k))
  (at level 10, x name, m at level 100, k at level 200).

(** [a and b]: [b] is consulted only when [a] is true. *)
Definition py_and (a b : res bool) : res bool :=
  let? va := a in if va then b else Ok false.

(** [a or b]: [b] is consulted only when [a] is false. *)
Definition py_or (a b : res bool) : res bool :=
  let? va := a in if va then Ok true else b.

Definition py_not (a : res bool) : res bool :=
  let? va := a in Ok (negb va).

Infix "&&&" := py_and (at level 40, left associativity).
Infix "|||" := py_or (at level 50, left associativity).

(* ================================================================== *)
(** ** Numbers *)

Definition Qltb (a b : Q) : bool := negb (Qle_bool b a).

(** A value that is either [None] or a number, as [path.get("width", 0)]
    returns it. *)
Definition pynum : Type := option Q.

Definition is_not_none (v : pynum) : bool :=
  match v with Some _ => true | None => false end.

Definition is_none (v : pynum) : bool := negb (is_not_none v).

(** The chained comparison [lo < v < hi]; comparing a float with [None]
    raises [TypeError]. *)
Definition chain_lt (lo : Q) (v : pynum) (hi : Q) : res bool :=
  match v with
  | None => Raise TypeError
  | Some w => Ok (Qltb lo w && Qltb w hi)
  end.

(* ================================================================== *)
(** ** The drawings of a page, as [page.get_drawings()] returns them *)

Record Point : Type := mkPoint { pt_x : Q; pt_y : Q }.

(** A draw command: a tuple whose first component is the kind tag. *)
Inductive item : Type :=
| Line (p1 p2 : Point)            (* ("l", p1, p2) *)
| Curve (p1 p2 p3 p4 : Point)     (* ("c", p1, p2, p3, p4) *)
| Rect (r0 r1 : Point)            (* ("re", rect, orientation) *)
| Quad (ul ur ll lr : Point).     (* ("qu", quad) *)

Definition rgb : Type := (Q * Q * Q)%type.

(** A path dictionary.  Each field is the entry under that key: [None]
    when the key is missing, [Some v] when it is present; the values of
    "color" and "width" may themselves be Python's [None]. *)
Record path : Type := mkPath {
  path_items : option (list item);
  path_color : option (option rgb);
  path_width : option pynum
}.

(** [d.get(key, default)] *)
Definition dict_get {A} (entry : option A) (default : A) : A :=
  match entry with
  | Some v => v
  | None => default
  end.

Record page : Type := mkPage { get_drawings : list path }.

Definition BLACK : rgb := (0, 0, 0)%Q.

(** [color == (0.0, 0.0, 0.0)]: tuples compare componentwise, by value;
    [None] equals no tuple. *)
Definition color_eq (color : option rgb) (t : rgb) : bool :=
  match color, t with
  | Some (r, g, b), (r', g', b') =>
      Qeq_bool r r' && Qeq_bool g g' && Qeq_bool b b'
  | None, _ => false
  end.

(* ================================================================== *)
(** ** Baseline locator *)

Section Locator.
Local Open Scope Q_scope.

(** The test guarding the body of the loop of [extract_baselines];
    [in_range] stands for the chained comparison on the width, which the
    connectives consult only when everything before it holds. *)
Definition baseline_guard (color : option rgb) (width : pynum)
    (in_range : res bool) (items : list item) : res bool :=
  Ok (color_eq color BLACK)
  &&& Ok (is_not_none width)
  &&& in_range
  &&& Ok (4 <=? length items)%nat.

Definition baseline_test (color : option rgb) (width : pynum)
    (items : list item) : res bool :=
  baseline_guard color width (chain_lt (35 # 100) width (45 # 100)) items.

(** One turn of the inner loop over [items]. *)
Definition y_values_step (y_values : list Q) (it : item) : list Q :=
  match it with
  | Line p1 p2 =>
      if Qltb (Qabs (pt_y p1 - pt_y p2)) (1 # 100)
         && Qltb 500 (Qabs (pt_x p2 - pt_x p1))
      then y_values ++ [pt_y p1]
      else y_values
  | _ => y_values
  end.

Definition collect_y_values (items : list item) : list Q :=
  fold_left y_values_step items [].

Definition visible_of (y_values : list Q) : list Q :=
  List.filter (fun y => Qltb y 760) y_values.

(** The loop over [paths], with its early [return]. *)
Fixpoint baselines_loop (paths : list path) : res (option (list Q)) :=
  match paths with
  | [] => Ok None
  | p :: rest =>
      let items := dict_get (path_items p) [] in
      let color := dict_get (path_color p) None in
      let width := dict_get (path_width p) (Some 0) in
      let? ok := baseline_test color width items in
      if ok then
        let visible := visible_of (collect_y_values items) in
        if (4 <=? length visible)%nat then Ok (Some (firstn 4 visible))
        else baselines_loop rest
      else baselines_loop rest
  end.

Definition extract_baselines (pg : page) : res (option (list Q)) :=
  baselines_loop (get_drawings pg).

End Locator.

(* ================================================================== *)
(** ** Waveform extractor *)

Section Extractor.
Local Open Scope Q_scope.

(** The test that makes the loop of [extract_ecg_waveform_rows]
    [continue] with the next path; [in_range] is the chained comparison
    on the width. *)
Definition waveform_skip_guard (color : option rgb) (width : pynum)
    (in_range : res bool) (items : list item) : res bool :=
  Ok (negb (color_eq color BLACK))
  ||| Ok (is_none width)
  ||| py_not in_range
  ||| Ok (length items <? 40)%nat.

Definition waveform_skip_test (color : option rgb) (width : pynum)
    (items : list item) : res bool :=
  waveform_skip_guard color width (chain_lt (35 # 100) width (45 # 100)) items.

(** One turn of the loop that builds [points]; [last points] is
    [points[-1]], and it is [None] exactly when [not points]. *)
Definition points_step (points : list (Q * Q)) (it : item) : list (Q * Q) :=
  match it with
  | Line p1 p2 =>
      let fresh :=
        match last points with
        | None => true
        | Some lp =>
            Qltb (1 # 1000) (Qabs (fst lp - pt_x p1))
            || Qltb (1 # 1000) (Qabs (snd lp - pt_y p1))
        end in
      (if fresh then points ++ [(pt_x p1, pt_y p1)] else points)
      ++ [(pt_x p2, pt_y p2)]
  | _ => points
  end.

Definition extract_points (items : list item) : list (Q * Q) :=
  fold_left points_step items [].

Definition Qsum (l : list Q) : Q := fold_left Qplus l 0.

(** [np.mean], as an exact quotient; it is only called on a list that is
    not empty. *)
Definition np_mean (l : list Q) : Q :=
  Qsum l / inject_Z (Z.of_nat (length l)).

(** [min_dist] starts at [float("inf")]. *)
Inductive xfloat : Type :=
| Inf
| Fin (q : Q).

Definition lt_xfloat (d : Q) (m : xfloat) : bool :=
  match m with
  | Inf => true
  | Fin q => Qltb d q
  end.

Definition xfloat_lt (m : xfloat) (bound : Q) : bool :=
  match m with
  | Inf => false
  | Fin q => Qltb q bound
  end.

(** [enumerate(l)] *)
Definition enumerate {A} (l : list A) : list (Z * A) :=
  combine (map Z.of_nat (seq 0 (length l))) l.

(** [range(n)] *)
Definition py_range (n : nat) : list Z := map Z.of_nat (seq 0 n).

(** One turn of the loop over [enumerate(baselines)]; the state is
    [(min_dist, best_row)]. *)
Definition nearest_step (y_center : Q) (st : xfloat * Z) (e : Z * Q)
    : xfloat * Z :=
  let '(min_dist, best_row) := st in
  let '(ri, bl) := e in
  let dist := Qabs (y_center - bl) in
  if lt_xfloat dist min_dist then (Fin dist, ri) else (min_dist, best_row).

Definition nearest_row (y_center : Q) (baselines : list Q) : xfloat * Z :=
  fold_left (nearest_step y_center) (enumerate baselines) (Inf, (-1)%Z).

(** [d[k]] *)
Definition dict_item {V} (d : gmap Z V) (k : Z) : res V :=
  match d !! k with
  | Some v => Ok v
  | None => Raise KeyError
  end.

(** The body of the loop over [paths]: the rows after this path. *)
Definition waveform_step (baselines : list Q)
    (rows : gmap Z (list (Q * Q))) (p : path)
    : res (gmap Z (list (Q * Q))) :=
  let color := dict_get (path_color p) None in
  let width := dict_get (path_width p) (Some 0) in
  let items := dict_get (path_items p) [] in
  let? skip := waveform_skip_test color width items in
  if skip then Ok rows
  else if (length items =? 1)%nat then Ok rows
  else
    let points := extract_points items in
    match points with
    | [] => Ok rows
    | _ :: _ =>
        let y_center := np_mean (map snd points) in
        let '(min_dist, best_row) := nearest_row y_center baselines in
        if (0 <=? best_row)%Z && xfloat_lt min_dist 80 then
          let? old := dict_item rows best_row in
          Ok (<[best_row := old ++ points]> rows)
        else Ok rows
    end.

Fixpoint waveform_loop (baselines : list Q) (paths : list path)
    (rows : gmap Z (list (Q * Q))) : res (gmap Z (list (Q * Q))) :=
  match paths with
  | [] => Ok rows
  | p :: rest =>
      let? rows' := waveform_step baselines rows p in
      waveform_loop baselines rest rows'
  end.

(** [l.sort(key=lambda p: p[0])]: the stable sort by first component,
    written as insertion from the right. *)
Fixpoint insert_by_x (p : Q * Q) (l : list (Q * Q)) : list (Q * Q) :=
  match l with
  | [] => [p]
  | q :: l' =>
      if Qle_bool (fst p) (fst q) then p :: q :: l'
      else q :: insert_by_x p l'
  end.

Definition sort_by_x (l : list (Q * Q)) : list (Q * Q) :=
  fold_right insert_by_x [] l.

(** [{i: [] for i in range(n)}] *)
Definition empty_rows (n : nat) : gmap Z (list (Q * Q)) :=
  list_to_map (map (fun i => (i, [])) (py_range n)).

Definition extract_ecg_waveform_rows (pg : page) (baselines : list Q)
    : res (gmap Z (list (Q * Q))) :=
  let paths := get_drawings pg in
  let rows := empty_rows (length baselines) in
  let? rows' := waveform_loop baselines paths rows in
  Ok (sort_by_x <$> rows').

End Extractor.

(* ================================================================== *)
(** ** Voltage conversion *)

Section Voltage.
Local Open Scope Q_scope.

(** Float division: a zero divisor raises. *)
Definition py_div (a b : Q) : res Q :=
  if Qeq_bool b 0 then Raise ZeroDivisionError else Ok (a / b).

Fixpoint points_to_voltage (points : list (Q * Q)) (baseline_y : Q)
    (cal_pt_per_mv : Q) : res (list Q) :=
  match points with
  | [] => Ok []
  | (_, y) :: rest =>
      let? v := py_div (baseline_y - y) cal_pt_per_mv in
      let? vs := points_to_voltage rest baseline_y cal_pt_per_mv in
      Ok (v :: vs)
  end.

End Voltage.

(* ================================================================== *)
(** ** The driver [main] *)

(** What [main] prints; numbers are kept as numbers, not formatted. *)
Inductive out_line : Type :=
| OutBaselines (baselines : list Q)
| OutRowNoData (ri : Z)
| OutRow (ri : Z) (samples : nat) (x_first x_last v_min v_max : Q)
| OutTotalSamples (n : nat)
| OutDuration (duration_sec : Q)
| OutSamplingRate (hz : Z)
| OutVoltageRange (v_min v_max : Q)
| OutEdfWritten (edf_path : string)
| OutFileSize.

(** What [main] does to the world, in program order: a printed line, or
    a call on the [pyedflib.EdfWriter], whose construction opens the
    output file. *)
Inductive event : Type :=
| print (line : out_line)
| EdfWriter (edf_path : string) (n_channels : Z)
| setPatientName (name : string)
| setSex (sex : Z)
| setBirthdate (year month day : Z)
| setStartdatetime (year month day hour minute second : Z)
| setEquipment (equipment : string)
| setRecordingAdditional (text : string)
| setLabel (chn : Z) (label : string)
| setPhysicalDimension (chn : Z) (dim : string)
| setSamplefrequency (chn : Z) (hz : Z)
| setTransducer (chn : Z) (text : string)
| setPrefilter (chn : Z) (text : string)
| setPhysicalMinimum (chn : Z) (v : Q)
| setPhysicalMaximum (chn : Z) (v : Q)
| setDigitalMinimum (chn : Z) (v : Z)
| setDigitalMaximum (chn : Z) (v : Z)
| writeSamples (channels : list (list Q))
| close.

Definition is_print (e : event) : bool :=
  match e with print _ => true | _ => false end.

(** The calls that reach the output sink. *)
Definition sink_calls (tr : list event) : list event :=
  List.filter (fun e => negb (is_print e)) tr.

(** A computation of [main]: it extends the trace and returns or raises;
    what was done before an exception stays done. *)
Definition M (A : Type) : Type := list event -> res A * list event.

Definition mret {A} (a : A) : M A := fun tr => (Ok a, tr).

Definition mbind' {A B} (m : M A) (k : A -> M B) : M B :=
  fun tr =>
    match m tr with
    | (Ok a, tr') => k a tr'
    | (Raise e, tr') => (Raise e, tr')
    end.

Definition emit (e : event) : M unit := fun tr => (Ok tt, tr ++ [e]).

Definition lift {A} (r : res A) : M A := fun tr => (r, tr).

Definition raise {A} (e : exn) : M A := lift (Raise e).

Notation "'let!' x ':=' m 'in' k" := (mbind' m (fun x => k))
  (at level 10, x name, m at level 100, k at level 200).
Notation "m ';;' k" := (mbind' m (fun _ => k))
  (at level 100, k at level 200, right associativity).

Section Main.
Local Open Scope Q_scope.

(** The builtin [min]: the first least element; an empty argument raises. *)
Definition py_min (l : list Q) : res Q :=
  match l with
  | [] => Raise ValueError
  | v :: rest => Ok (fold_left (fun m w => if Qltb w m then w else m) rest v)
  end.

Definition py_max (l : list Q) : res Q :=
  match l with
  | [] => Raise ValueError
  | v :: rest => Ok (fold_left (fun m w => if Qltb m w then w else m) rest v)
  end.

(** [np.min], [ndarray.min] and their [max]: the same values, and the
    same exception on a zero-size array. *)
Definition np_min (signal : list Q) : res Q := py_min signal.
Definition np_max (signal : list Q) : res Q := py_max signal.

(** [l[i]] on a list, for an index that is not negative. *)
Definition list_item {A} (l : list A) (i : Z) : res A :=
  match l !! Z.to_nat i with
  | Some v => Ok v
  | None => Raise IndexError
  end.

Definition CAL_PT_PER_MV : Q := 28346 # 1000.
Definition SAMPLE_RATE : Z := 300.
Definition LEAD_NAME : string := "I".
Definition pdf_path : string :=
  "/Users/jph/git/joelparkerhenderson/kardiamobile-personal-health-information/kardiamobile-1-lead-ecg.pdf".
Definition edf_path : string :=
  "/Users/jph/git/joelparkerhenderson/kardiamobile-personal-health-information/kardiamobile-1-lead-ecg.edf".

(** One turn of the loop that removes duplicate x-coordinates;
    [deduped] is never empty there. *)
Definition dedup_step (deduped : list (Q * Q)) (p : Q * Q) : list (Q * Q) :=
  match last deduped with
  | Some lp =>
      if Qltb (1 # 100) (Qabs (fst p - fst lp)) then deduped ++ [p]
      else deduped
  | None => deduped
  end.

(** [deduped = [points[0]]] and the loop over [range(1, len(points))];
    [points[0]] raises on an empty list. *)
Definition dedup (points : list (Q * Q)) : res (list (Q * Q)) :=
  match points with
  | [] => Raise IndexError
  | p0 :: rest => Ok (fold_left dedup_step rest [p0])
  end.

(** The body of the loop over the rows: the voltages to append. *)
Definition row_voltages (rows : gmap Z (list (Q * Q))) (baselines : list Q)
    (ri : Z) : M (list Q) :=
  let! points := lift (dict_item rows ri) in
  match points with
  | [] => emit (print (OutRowNoData ri));; mret []
  | _ :: _ =>
      let! deduped := lift (dedup points) in
      let! bl := lift (list_item baselines ri) in
      let! voltages := lift (points_to_voltage deduped bl CAL_PT_PER_MV) in
      let! x_first := lift (list_item (map fst deduped) 0) in
      let! x_last :=
        lift (match last deduped with
              | Some lp => Ok (fst lp)
              | None => Raise IndexError
              end) in
      let! v_min := lift (py_min voltages) in
      let! v_max := lift (py_max voltages) in
      emit (print (OutRow ri (length voltages) x_first x_last v_min v_max));;
      mret voltages
  end.

Fixpoint rows_loop (rows : gmap Z (list (Q * Q))) (baselines : list Q)
    (ris : list Z) (all_voltages : list Q) : M (list Q) :=
  match ris with
  | [] => mret all_voltages
  | ri :: rest =>
      let! voltages := row_voltages rows baselines ri in
      rows_loop rows baselines rest (all_voltages ++ voltages)
  end.

(** Lines 186 to 220: the EDF file is opened, described, written and
    closed. *)
Definition write_edf (signal : list Q) : M unit :=
  emit (EdfWriter edf_path 1);;
  emit (setPatientName "Joel_Henderson");;
  emit (setSex 1);;
  emit (setBirthdate 1970 5 4);;
  emit (setStartdatetime 2026 2 13 22 42 0);;
  emit (setEquipment "KardiaMobile_1L");;
  emit (setRecordingAdditional "Normal_Sinus_Rhythm_HR_76_BPM");;
  emit (setLabel 0 ("EKG " ++ LEAD_NAME));;
  emit (setPhysicalDimension 0 "mV");;
  emit (setSamplefrequency 0 SAMPLE_RATE);;
  emit (setTransducer 0 "KardiaMobile 1L electrode");;
  emit (setPrefilter 0 "Enhanced Filter, 50Hz mains");;
  let! lo := lift (np_min signal) in
  let phys_min := lo - (1 # 10) in
  let! hi := lift (np_max signal) in
  let phys_max := hi + (1 # 10) in
  emit (setPhysicalMinimum 0 phys_min);;
  emit (setPhysicalMaximum 0 phys_max);;
  emit (setDigitalMinimum 0 (-32768));;
  emit (setDigitalMaximum 0 32767);;
  emit (writeSamples [signal]);;
  emit close;;
  emit (print (OutEdfWritten edf_path));;
  emit (print OutFileSize).

(** [main], on the opened document: the list of its pages.  The test
    [not baselines] holds of [None] and of the empty list. *)
Definition main_from (doc : list page) : M unit :=
  let! pg := lift (list_item doc 1) in
  let! found := lift (extract_baselines pg) in
  match found with
  | None | Some [] =>
      raise (RuntimeError "Could not find baseline grid lines in PDF")
  | Some ((_ :: _) as baselines) =>
      emit (print (OutBaselines baselines));;
      let! rows := lift (extract_ecg_waveform_rows pg baselines) in
      let! signal :=
        rows_loop rows baselines (py_range (length baselines)) [] in
      let duration_sec :=
        inject_Z (Z.of_nat (length signal)) / inject_Z SAMPLE_RATE in
      emit (print (OutTotalSamples (length signal)));;
      emit (print (OutDuration duration_sec));;
      emit (print (OutSamplingRate SAMPLE_RATE));;
      let! v_min := lift (np_min signal) in
      let! v_max := lift (np_max signal) in
      emit (print (OutVoltageRange v_min v_max));;
      write_edf signal
  end.

Definition main (doc : list page) : res unit * list event :=
  main_from doc [].

End Main.

(* ================================================================== *)
(** ** Vocabulary of the specification *)

Section Vocabulary.
Local Open Scope Q_scope.

Definition items_of (p : path) : list item := dict_get (path_items p) [].
Definition color_of (p : path) : option rgb := dict_get (path_color p) None.
Definition width_of (p : path) : pynum := dict_get (path_width p) (Some 0).

(** Stroke colour exactly (0, 0, 0). *)
Definition pure_black (c : option rgb) : Prop :=
  exists r g b, c = Some (r, g, b) /\ r == 0 /\ g == 0 /\ b == 0.

(** Stroke width present and strictly between 0.35 and 0.45. *)
Definition thin_width (w : pynum) : Prop :=
  exists q, w = Some q /\ 35 # 100 < q /\ q < 45 # 100.

(** The stroke width is absent: the key is missing, or its value is
    [None]. *)
Definition width_absent (p : path) : Prop :=
  path_width p = None \/ path_width p = Some None.

(** The baseline classification rule. *)
Definition baseline_rule (p : path) : Prop :=
  pure_black (color_of p) /\ thin_width (width_of p)
  /\ (4 <= length (items_of p))%nat.

Definition baseline_ruleb (p : path) : bool :=
  color_eq (color_of p) BLACK
  && match width_of p with
     | Some q => Qltb (35 # 100) q && Qltb q (45 # 100)
     | None => false
     end
  && (4 <=? length (items_of p))%nat.

(** A qualifying segment: a line, horizontal within 0.01, wider than 500,
    above the cutoff 760. *)
Definition baseline_segment (it : item) : Prop :=
  exists p1 p2, it = Line p1 p2
    /\ Qabs (pt_y p1 - pt_y p2) < 1 # 100
    /\ 500 < Qabs (pt_x p2 - pt_x p1)
    /\ pt_y p1 < 760.

Definition baseline_segmentb (it : item) : bool :=
  match it with
  | Line p1 p2 =>
      Qltb (Qabs (pt_y p1 - pt_y p2)) (1 # 100)
      && Qltb 500 (Qabs (pt_x p2 - pt_x p1))
      && Qltb (pt_y p1) 760
  | _ => false
  end.

Definition segment_y (it : item) : Q :=
  match it with
  | Line p1 _ => pt_y p1
  | _ => 0
  end.

(** The y-values of the qualifying segments of a path, in encounter
    order. *)
Definition surviving_ys (p : path) : list Q :=
  map segment_y (List.filter baseline_segmentb (items_of p)).

(** A path from which the locator returns. *)
Definition locating (p : path) : Prop :=
  baseline_rule p /\ (4 <= length (surviving_ys p))%nat.

Definition locatingb (p : path) : bool :=
  baseline_ruleb p && (4 <=? length (surviving_ys p))%nat.



End Vocabulary.

(* ================================================================== *)
(** ** Sample pages *)

Section Samples.
Local Open Scope Q_scope.

Definition pt (x y : Z) : Point := mkPoint (inject_Z x) (inject_Z y).

Definition hline (x0 x1 y : Z) : item := Line (pt x0 y) (pt x1 y).

Definition stroke (color : rgb) (width : Q) (items : list item) : path :=
  mkPath (Some items) (Some (Some color)) (Some (Some width)).

(** The four row baselines, among segments that must be ignored: a short
    tick, a slanted line, a rectangle, a line below the cutoff, and a
    fifth long line. *)
Definition grid_items : list item :=
  [ hline 20 30 50;
    hline 20 580 100;
    Line (pt 20 120) (pt 580 180);
    Rect (pt 0 0) (pt 600 800);
    hline 20 580 250;
    hline 20 580 400;
    hline 20 580 800;
    hline 20 580 550;
    hline 20 580 700 ].

Definition grid_path : path := stroke BLACK (4 # 10) grid_items.

(** Paths that must be ignored: the page frame (default weight), a red
    copy of the grid, a black thin path of three lines, and paths whose
    width is [None] or missing. *)
Definition frame_path : path := stroke BLACK 1 grid_items.
Definition red_grid_path : path := stroke (1, 0, 0) (4 # 10) grid_items.
Definition sparse_path : path :=
  stroke BLACK (4 # 10) [hline 20 580 100; hline 20 580 250; hline 20 580 400].
Definition none_width_path : path :=
  mkPath (Some grid_items) (Some (Some BLACK)) (Some None).
Definition no_width_path : path :=
  mkPath (Some grid_items) (Some (Some BLACK)) None.

Definition decoy_paths : list path :=
  [frame_path; red_grid_path; sparse_path; none_width_path; no_width_path].

Definition grid_page : page := mkPage (decoy_paths ++ [grid_path]).

End Samples.

(* ================================================================== *)
(** ** Vocabulary of the specification: waveform strokes and rows *)

Section WaveformVocabulary.
Local Open Scope Q_scope.

(** The waveform classification rule of the extractor: pure black, thin,
    at least 40 draw commands. *)
Definition waveform_rule (p : path) : Prop :=
  pure_black (color_of p) /\ thin_width (width_of p)
  /\ (40 <= length (items_of p))%nat.

Definition waveform_ruleb (p : path) : bool :=
  color_eq (color_of p) BLACK
  && match width_of p with
     | Some q => Qltb (35 # 100) q && Qltb q (45 # 100)
     | None => false
     end
  && (40 <=? length (items_of p))%nat.

(** The rule with the colour test the other way round: any colour but
    pure black. *)
Definition non_black_waveform_rule (p : path) : Prop :=
  ~ pure_black (color_of p) /\ thin_width (width_of p)
  /\ (40 <= length (items_of p))%nat.

(** Row [r] is the row nearest to the height [c], at distance [d]: no
    baseline is nearer, and every earlier baseline is farther. *)
Definition nearest_baseline (c : Q) (baselines : list Q) (r : nat) (d : Q)
    : Prop :=
  exists b, baselines !! r = Some b
    /\ d = Qabs (c - b)
    /\ (forall j b', baselines !! j = Some b' -> d <= Qabs (c - b'))
    /\ (forall j b', (j < r)%nat -> baselines !! j = Some b' ->
                     d < Qabs (c - b')).

(** The mean height of the points of a path. *)
Definition centroid_y (p : path) : Q :=
  np_mean (map snd (extract_points (items_of p))).

(** The points that path [p] adds to row [ri]. *)
Definition row_points (baselines : list Q) (ri : Z) (p : path)
    : list (Q * Q) :=
  let '(min_dist, best_row) := nearest_row (centroid_y p) baselines in
  if waveform_ruleb p && (0 <=? best_row)%Z && (best_row =? ri)%Z
     && xfloat_lt min_dist 80
  then extract_points (items_of p)
  else [].

(** The rows hold exactly the keys of [range(n)]. *)
Definition rows_keyed (n : nat) (rows : gmap Z (list (Q * Q))) : Prop :=
  forall ri : Z, is_Some (rows !! ri) <-> (0 <= ri < Z.of_nat n)%Z.

(** Ascending in x. *)
Definition x_le (a b : Q * Q) : Prop := fst a <= fst b.

End WaveformVocabulary.

(* ================================================================== *)
(** ** Vocabulary of the specification: reconstruction *)

Section ReconstructionVocabulary.
Local Open Scope Q_scope.

(** Deduplication by structural recursion: [lp] is the last point kept. *)
Fixpoint dedup_from (lp : Q * Q) (rest : list (Q * Q)) : list (Q * Q) :=
  match rest with
  | [] => []
  | p :: rest' =>
      if Qltb (1 # 100) (Qabs (fst p - fst lp)) then p :: dedup_from p rest'
      else dedup_from lp rest'
  end.

(** Every point is more than 0.01 away in x from the one before it. *)
Fixpoint spaced (lp : Q * Q) (l : list (Q * Q)) : Prop :=
  match l with
  | [] => True
  | p :: l' => 1 # 100 < Qabs (fst p - fst lp) /\ spaced p l'
  end.

(** The voltage of a point of a row with baseline [baseline_y]. *)
Definition voltage_of (baseline_y : Q) (p : Q * Q) : Q :=
  (baseline_y - snd p) / CAL_PT_PER_MV.

(** The deduplicated points of a row; nothing for an empty row. *)
Definition row_deduped (points : list (Q * Q)) : list (Q * Q) :=
  match points with
  | [] => []
  | p0 :: rest => p0 :: dedup_from p0 rest
  end.

(** The voltage sequence of row [ri]. *)
Definition row_signal (rows : gmap Z (list (Q * Q))) (baselines : list Q)
    (ri : Z) : list Q :=
  match rows !! ri, baselines !! Z.to_nat ri with
  | Some points, Some bl => map (voltage_of bl) (row_deduped points)
  | _, _ => []
  end.

(** [m] is the least value of [l]. *)
Definition is_minimum (m : Q) (l : list Q) : Prop :=
  In m l /\ forall v, In v l -> m <= v.

(** [m] is the greatest value of [l]. *)
Definition is_maximum (m : Q) (l : list Q) : Prop :=
  In m l /\ forall v, In v l -> v <= m.

End ReconstructionVocabulary.

(* ================================================================== *)
(** ** Sample traces *)

Section SampleTraces.
Local Open Scope Q_scope.

(** Vertex [i] of a zigzag around height [y], starting at [x0]. *)
Definition vertex (x0 y : Z) (i : nat) : Point :=
  pt (x0 + Z.of_nat i) (if Nat.even i then y + 5 else y - 5)%Z.

(** A polyline of [n] line commands whose segments share endpoints. *)
Definition zigzag (n : nat) (x0 y : Z) : list item :=
  map (fun i => Line (vertex x0 y i) (vertex x0 y (S i))) (seq 0 n).

Definition sample_baselines : list Q :=
  [inject_Z 100; inject_Z 250; inject_Z 400; inject_Z 550].

(** Forty segments around the first baseline, drawn in red and in black. *)
Definition red_trace : path := stroke (1, 0, 0) (4 # 10) (zigzag 40 20 100).
Definition black_trace : path := stroke BLACK (4 # 10) (zigzag 40 20 100).

(** A black trace that is 100 units away from the nearest baseline. *)
Definition far_trace : path := stroke BLACK (4 # 10) (zigzag 40 20 650).

End SampleTraces.

(* ================================================================== *)
(** ** Sample documents *)

Section SampleDocuments.
Local Open Scope Q_scope.

(** The line commands joining consecutive vertices. *)
Fixpoint polyline (vs : list Point) : list item :=
  match vs with
  | a :: (b :: _) as rest => Line a b :: polyline rest
  | _ => []
  end.

(** A black thin path of exactly 40 commands: the polyline through [vs],
    filled up with rectangles. *)
Definition short_trace (vs : list Point) : path :=
  stroke BLACK (4 # 10)
    (polyline vs
     ++ repeat (Rect (pt 0 0) (pt 1 1)) (40 - length (polyline vs))).

(** Three points near the first baseline, none near the second, two near
    the third and four near the fourth. *)
Definition row0_trace : path := short_trace [pt 30 95; pt 31 105; pt 32 98].
Definition row2_trace : path := short_trace [pt 30 395; pt 31 405].
Definition row3_trace : path :=
  short_trace [pt 30 545; pt 31 555; pt 32 548; pt 33 552].

Definition scenario_page : page :=
  mkPage [frame_path; row3_trace; grid_path; row0_trace; row2_trace].

Definition scenario_doc : list page := [mkPage []; scenario_page].

(** A document whose second page has the grid and no trace. *)
Definition grid_only_doc : list page := [mkPage []; grid_page].

(** A document whose second page has no baseline path. *)
Definition no_grid_doc : list page := [mkPage []; mkPage decoy_paths].

Definition baseline_not_found : res unit :=
  Raise (RuntimeError "Could not find baseline grid lines in PDF").

(** No path of the page can serve as the baseline path. *)
Definition no_baseline_path (pg : page) : Prop :=
  List.Forall (fun p => ~ baseline_rule p \/ (length (surviving_ys p) < 4)%nat)
              (get_drawings pg).

End SampleDocuments.

(* ================================================================== *)
(** ** Vocabulary for the further properties *)

Section FurtherVocabulary.
Local Open Scope Q_scope.

(** A point as the tuple [(p.x, p.y)]. *)
Definition coords (p : Point) : Q * Q := (pt_x p, pt_y p).

Definition is_line (it : item) : bool :=
  match it with Line _ _ => true | _ => false end.

(** The number of line commands of a list of draw commands. *)
Definition count_lines (items : list item) : nat :=
  length (List.filter is_line items).

(** Both endpoints of every line command, in order. *)
Definition endpoints (items : list item) : list (Q * Q) :=
  flat_map (fun it => match it with
                      | Line p1 p2 => [coords p1; coords p2]
                      | _ => []
                      end) items.

(** A horizontal line wider than 500: a candidate baseline segment,
    before the cutoff at 760. *)
Definition wide_horizontal (it : item) : Prop :=
  exists p1 p2, it = Line p1 p2
    /\ Qabs (pt_y p1 - pt_y p2) < 1 # 100
    /\ 500 < Qabs (pt_x p2 - pt_x p1).

(** [b] lies more than 0.01 to the right of [a]. *)
Definition x_gap (a b : Q * Q) : Prop := fst a + (1 # 100) < fst b.

(** [l] is [k], with some elements left out. *)
Inductive sublist {A : Type} : list A -> list A -> Prop :=
| sublist_nil : sublist [] []
| sublist_skip a l k : sublist l k -> sublist l (a :: k)
| sublist_keep a l k : sublist l k -> sublist (a :: l) (a :: k).

Definition is_writeSamples (e : event) : bool :=
  match e with writeSamples _ => true | _ => false end.

Definition is_EdfWriter (e : event) : bool :=
  match e with EdfWriter _ _ => true | _ => false end.

(** A black thin path of four commands, only three of them long
    horizontal lines. *)
Definition short_grid_path : path :=
  stroke BLACK (4 # 10)
    [hline 20 580 100; hline 20 580 250; hline 20 580 400; hline 20 30 50].

(** Row [ri] of what the extractor returns; empty when there is no such
    row. *)
Definition row_of (paths : list path) (baselines : list Q) (ri : Z)
    : list (Q * Q) :=
  match extract_ecg_waveform_rows (mkPage paths) baselines with
  | Ok rows => dict_get (rows !! ri) []
  | Raise _ => []
  end.

(** The points of a path that the extractor hands to some row: all of
    them when the path is under the waveform rule and its nearest
    baseline is nearer than 80, none otherwise. *)
Definition assigned_points (baselines : list Q) (p : path) : list (Q * Q) :=
  if waveform_ruleb p
     && xfloat_lt (fst (nearest_row (centroid_y p) baselines)) 80
  then extract_points (items_of p)
  else [].

(** The exceptions [main] can end with. *)
Definition main_exception (e : exn) : Prop :=
  e = IndexError
  \/ e = RuntimeError "Could not find baseline grid lines in PDF"
  \/ e = ValueError.

End FurtherVocabulary.

(* ================================================================== *)
(** * Proofs *)

(** ** Comparisons *)

#[local] Arguments Qabs : simpl never.
#[local] Arguments Qminus : simpl never.
#[local] Arguments Qplus : simpl never.
#[local] Arguments Qmult : simpl never.
#[local] Arguments Qdiv : simpl never.
#[local] Arguments Qle_bool : simpl never.
#[local] Arguments Qeq_bool : simpl never.
#[local] Arguments Qltb : simpl never.
#[local] Arguments inject_Z : simpl never.
#[local] Arguments Nat.leb : simpl never.
#[local] Arguments Nat.ltb : simpl never.
#[local] Arguments Nat.eqb : simpl never.

Lemma Qltb_lt (a b : Q) : Qltb a b = true <-> (a < b)%Q.
Proof.
  unfold Qltb. rewrite negb_true_iff. split; intros H.
  - apply Qnot_le_lt. intros Hle. apply Qle_bool_iff in Hle. congruence.
  - destruct (Qle_bool b a) eqn:E; [|reflexivity].
    apply Qle_bool_iff in E. exfalso. apply (Qlt_not_le _ _ H E).
Qed.

Lemma Qltb_ge (a b : Q) : Qltb a b = false <-> (b <= a)%Q.
Proof.
  unfold Qltb. rewrite negb_false_iff. apply Qle_bool_iff.
Qed.

Lemma Qeq_bool_true (a b : Q) : Qeq_bool a b = true <-> (a == b)%Q.
Proof. apply Qeq_bool_iff. Qed.

Ltac bool_hyps :=
  repeat match goal with
  | H : _ && _ = true |- _ => apply andb_true_iff in H; destruct H
  | H : Qltb _ _ = true |- _ => apply Qltb_lt in H
  | H : Qltb _ _ = false |- _ => apply Qltb_ge in H
  | H : Qeq_bool _ _ = true |- _ => apply Qeq_bool_true in H
  | H : (_ <=? _)%nat = true |- _ => apply Nat.leb_le in H
  | H : (_ <=? _)%nat = false |- _ => apply Nat.leb_gt in H
  | H : (_ <? _)%nat = true |- _ => apply Nat.ltb_lt in H
  | H : (_ <? _)%nat = false |- _ => apply Nat.ltb_ge in H
  end.

Ltac bool_goal :=
  repeat match goal with
  | |- _ && _ = true => apply andb_true_iff; split
  | |- Qltb _ _ = true => apply Qltb_lt
  | |- Qltb _ _ = false => apply Qltb_ge
  | |- Qeq_bool _ _ = true => apply Qeq_bool_true
  | |- (_ <=? _)%nat = true => apply Nat.leb_le
  | |- (_ <? _)%nat = true => apply Nat.ltb_lt
  end.

(** ** Baseline locator *)

Section LocatorFacts.
Local Open Scope Q_scope.

Lemma baseline_ruleb_iff (p : path) :
  baseline_ruleb p = true <-> baseline_rule p.
Proof.
  unfold baseline_ruleb, baseline_rule, pure_black, thin_width, color_eq, BLACK.
  split.
  - intros H. bool_hyps.
    destruct (color_of p) as [[[r g] b]|]; [|discriminate].
    destruct (width_of p) as [q|]; [|discriminate].
    bool_hyps. repeat split; eauto 10.
  - intros [(r & g & b & -> & Hr & Hg & Hb) [(q & -> & Hlo & Hhi) Hn]].
    bool_goal; assumption.
Qed.

Lemma baseline_segmentb_iff (it : item) :
  baseline_segmentb it = true <-> baseline_segment it.
Proof.
  unfold baseline_segment. split.
  - destruct it; simpl; try discriminate. intros H. bool_hyps. eauto 10.
  - intros (p1 & p2 & -> & H1 & H2 & H3). simpl. bool_goal; assumption.
Qed.

Lemma locatingb_iff (p : path) : locatingb p = true <-> locating p.
Proof.
  unfold locatingb, locating.
  rewrite andb_true_iff, baseline_ruleb_iff, Nat.leb_le. reflexivity.
Qed.

(** The guard of the locator never raises: the [None] test shields the
    chained comparison. *)
Lemma baseline_test_total (p : path) :
  baseline_test (color_of p) (width_of p) (items_of p) = Ok (baseline_ruleb p).
Proof.
  unfold baseline_test, baseline_guard, baseline_ruleb.
  destruct (color_eq (color_of p) BLACK); simpl; [|reflexivity].
  destruct (width_of p) as [q|]; simpl; [|reflexivity].
  destruct (Qltb (35 # 100) q && Qltb q (45 # 100)); reflexivity.
Qed.

Lemma collect_y_values_acc (items : list item) (acc : list Q) :
  fold_left y_values_step items acc
  = acc ++ fold_left y_values_step items [].
Proof.
  revert acc. induction items as [|it items IH]; intros acc; simpl.
  - now rewrite app_nil_r.
  - rewrite IH. rewrite (IH (y_values_step [] it)).
    rewrite app_assoc. f_equal.
    destruct it; simpl; try now rewrite app_nil_r.
    destruct (_ && _); simpl; now rewrite ?app_nil_r.
Qed.

Lemma visible_collect (items : list item) :
  visible_of (collect_y_values items)
  = map segment_y (List.filter baseline_segmentb items).
Proof.
  unfold collect_y_values, visible_of.
  induction items as [|it items IH]; simpl; [reflexivity|].
  rewrite collect_y_values_acc, List.filter_app, IH.
  destruct it; simpl; try reflexivity.
  destruct (Qltb (Qabs (pt_y p1 - pt_y p2)) (1 # 100)
            && Qltb 500 (Qabs (pt_x p2 - pt_x p1))); simpl; [|reflexivity].
  destruct (Qltb (pt_y p1) 760); reflexivity.
Qed.

(** The loop returns from the first locating path. *)
Lemma baselines_loop_find (paths : list path) :
  baselines_loop paths
  = Ok (option_map (fun p => firstn 4 (surviving_ys p))
                   (List.find locatingb paths)).
Proof.
  induction paths as [|p paths IH]; [reflexivity|].
  cbn [baselines_loop List.find].
  fold (items_of p) (color_of p) (width_of p).
  rewrite baseline_test_total. cbn [rbind].
  rewrite visible_collect. fold (surviving_ys p).
  unfold locatingb at 1.
  destruct (baseline_ruleb p); cbn [andb]; [|exact IH].
  destruct (4 <=? length (surviving_ys p))%nat; [reflexivity|exact IH].
Qed.

Lemma find_split {A} (f : A -> bool) (l : list A) (a : A) :
  List.find f l = Some a ->
  exists pre post, l = pre ++ a :: post /\ f a = true
                   /\ Forall (fun b => f b = false) pre.
Proof.
  induction l as [|b l IH]; simpl; [discriminate|].
  destruct (f b) eqn:E.
  - intros [= ->]. exists [], l. auto.
  - intros H. destruct (IH H) as (pre & post & -> & Ha & Hpre).
    exists (b :: pre), post. auto.
Qed.

Lemma In_firstn {A} (n : nat) (l : list A) (a : A) :
  In a (firstn n l) -> In a l.
Proof.
  intros H. rewrite <- (firstn_skipn n l). apply in_or_app. now left.
Qed.

Lemma find_none_forall {A} (f : A -> bool) (l : list A) :
  List.find f l = None <-> Forall (fun b => f b = false) l.
Proof.
  induction l as [|b l IH]; simpl.
  - split; auto.
  - destruct (f b) eqn:E.
    + split; [discriminate|]. intros H. inversion H; congruence.
    + rewrite IH. split; [auto|]. intros H. now inversion H.
Qed.








End LocatorFacts.

(** ** The locator returns the first four surviving baselines *)




Example extract_baselines_grid_page :
  extract_baselines grid_page
  = Ok (Some [inject_Z 100; inject_Z 250; inject_Z 400; inject_Z 550]).
Proof. vm_compute. reflexivity. Qed.

(** ** Waveform extractor *)

Section ExtractorFacts.
Local Open Scope Q_scope.

Lemma waveform_ruleb_iff (p : path) :
  waveform_ruleb p = true <-> waveform_rule p.
Proof.
  unfold waveform_ruleb, waveform_rule, pure_black, thin_width, color_eq, BLACK.
  split.
  - intros H. bool_hyps.
    destruct (color_of p) as [[[r g] b]|]; [|discriminate].
    destruct (width_of p) as [q|]; [|discriminate].
    bool_hyps. repeat split; eauto 10.
  - intros [(r & g & b & -> & Hr & Hg & Hb) [(q & -> & Hlo & Hhi) Hn]].
    bool_goal; assumption.
Qed.

(** The guard of the extractor never raises either. *)
Lemma waveform_skip_total (p : path) :
  waveform_skip_test (color_of p) (width_of p) (items_of p)
  = Ok (negb (waveform_ruleb p)).
Proof.
  unfold waveform_skip_test, waveform_skip_guard, waveform_ruleb.
  destruct (color_eq (color_of p) BLACK); simpl; [|reflexivity].
  destruct (width_of p) as [q|]; simpl; [|reflexivity].
  destruct (Qltb (35 # 100) q && Qltb q (45 # 100)); simpl; [|reflexivity].
  unfold Nat.ltb. destruct (40 <=? length (items_of p))%nat eqn:E.
  - apply Nat.leb_le in E. replace (_ <=? 40)%nat with false; [reflexivity|].
    symmetry. apply Nat.leb_gt. lia.
  - apply Nat.leb_gt in E. replace (_ <=? 40)%nat with true; [reflexivity|].
    symmetry. apply Nat.leb_le. lia.
Qed.

Lemma combine_snoc {A B} (l : list A) (l' : list B) (a : A) (b : B) :
  length l = length l' ->
  combine (l ++ [a]) (l' ++ [b]) = combine l l' ++ [(a, b)].
Proof.
  revert l'. induction l as [|x l IH]; intros [|y l'] H; simpl in *;
    try discriminate; [reflexivity|].
  f_equal. apply IH. lia.
Qed.

Lemma enumerate_snoc {A} (l : list A) (a : A) :
  enumerate (l ++ [a]) = enumerate l ++ [(Z.of_nat (length l), a)].
Proof.
  unfold enumerate. rewrite length_app. simpl length.
  rewrite Nat.add_1_r, seq_S, map_app. simpl.
  apply combine_snoc. now rewrite length_map, length_seq.
Qed.

Lemma nearest_row_nil (c : Q) : nearest_row c [] = (Inf, (-1)%Z).
Proof. reflexivity. Qed.

Lemma nearest_row_snoc (c : Q) (l : list Q) (b : Q) :
  nearest_row c (l ++ [b])
  = nearest_step c (nearest_row c l) (Z.of_nat (length l), b).
Proof.
  unfold nearest_row. now rewrite enumerate_snoc, fold_left_app.
Qed.

(** The loop over [enumerate(baselines)] finds the first nearest row. *)
Lemma nearest_row_spec (c : Q) (baselines : list Q) :
  baselines <> [] ->
  exists r d, nearest_row c baselines = (Fin d, Z.of_nat r)
              /\ nearest_baseline c baselines r d.
Proof.
  induction baselines as [|b l IH] using rev_ind; [congruence|]. intros _.
  rewrite nearest_row_snoc.
  destruct l as [|b0 l0].
  - exists 0%nat, (Qabs (c - b)). split; [reflexivity|].
    exists b. split; [reflexivity|]. split; [reflexivity|]. split.
    + intros [|j] b' Hj; simpl in Hj; [|discriminate].
      injection Hj as <-. apply Qle_refl.
    + intros j b' Hj. lia.
  - destruct IH as (r & d & Hrow & bl & Hbl & Hd & Hle & Hlt); [discriminate|].
    set (l := b0 :: l0) in *. rewrite Hrow. unfold nearest_step, lt_xfloat.
    destruct (Qltb (Qabs (c - b)) d) eqn:E; bool_hyps.
    + exists (length l), (Qabs (c - b)). split; [reflexivity|].
      exists b. split; [|split; [reflexivity|split]].
      * rewrite lookup_app_r by lia. now rewrite Nat.sub_diag.
      * intros j b' Hj. destruct (decide (j < length l)%nat) as [Hlt'|Hge].
        -- rewrite lookup_app_l in Hj by exact Hlt'.
           apply Qlt_le_weak. eapply Qlt_le_trans; [exact E|]. eauto.
        -- rewrite lookup_app_r in Hj by lia.
           destruct (j - length l)%nat; simpl in Hj; [|discriminate].
           injection Hj as <-. apply Qle_refl.
      * intros j b' Hlt' Hj. rewrite lookup_app_l in Hj by exact Hlt'.
        eapply Qlt_le_trans; [exact E|]. eauto.
    + exists r, d. split; [reflexivity|].
      assert (Hr : (r < length l)%nat) by (eapply lookup_lt_Some; eauto).
      exists bl. split; [|split; [exact Hd|split]].
      * rewrite lookup_app_l by exact Hr. exact Hbl.
      * intros j b' Hj. destruct (decide (j < length l)%nat) as [Hlt'|Hge].
        -- rewrite lookup_app_l in Hj by exact Hlt'. eauto.
        -- rewrite lookup_app_r in Hj by lia.
           destruct (j - length l)%nat; simpl in Hj; [|discriminate].
           injection Hj as <-. exact E.
      * intros j b' Hlt' Hj. rewrite lookup_app_l in Hj by lia. eauto.
Qed.

(** The nearest row is unique. *)
Lemma nearest_baseline_unique (c : Q) (baselines : list Q) (r r' : nat)
    (d d' : Q) :
  nearest_baseline c baselines r d -> nearest_baseline c baselines r' d' ->
  r = r'.
Proof.
  intros (b & Hb & Hd & Hle & Hlt) (b' & Hb' & Hd' & Hle' & Hlt').
  destruct (lt_eq_lt_dec r r') as [[H| ->]|H]; [|reflexivity|]; exfalso.
  - specialize (Hlt' _ _ H Hb). specialize (Hle _ _ Hb').
    subst. apply (Qlt_not_le _ _ Hlt' Hle).
  - specialize (Hlt _ _ H Hb'). specialize (Hle' _ _ Hb).
    subst. apply (Qlt_not_le _ _ Hlt Hle').
Qed.

Lemma py_range_S (n : nat) : py_range (S n) = py_range n ++ [Z.of_nat n].
Proof. unfold py_range. now rewrite seq_S, map_app. Qed.

Lemma empty_rows_lookup (n : nat) (ri : Z) :
  empty_rows n !! ri
  = if decide (0 <= ri < Z.of_nat n)%Z then Some [] else None.
Proof.
  unfold empty_rows. induction n as [|n IH].
  - simpl. rewrite lookup_empty. case_decide; [lia|reflexivity].
  - rewrite py_range_S, map_app, list_to_map_app, lookup_union, IH.
    simpl. destruct (decide (ri = Z.of_nat n)) as [->|Hne].
    + rewrite lookup_insert_eq. repeat case_decide; try lia; reflexivity.
    + rewrite lookup_insert_ne, lookup_empty by congruence.
      repeat case_decide; try lia; reflexivity.
Qed.

Lemma empty_rows_keyed (n : nat) : rows_keyed n (empty_rows n).
Proof.
  intros ri. rewrite empty_rows_lookup. case_decide.
  - split; [auto|eauto].
  - split; [intros [? ?]; discriminate|contradiction].
Qed.

Lemma fmap_app_nil {A} (o : option (list A)) :
  (fun old => old ++ []) <$> o = o.
Proof. destruct o; simpl; [now rewrite app_nil_r|reflexivity]. Qed.

(** What one path does to the rows: row by row, it appends
    [row_points]; it never raises on rows keyed by the baselines. *)
Lemma waveform_step_lookup (baselines : list Q)
    (rows : gmap Z (list (Q * Q))) (p : path) :
  rows_keyed (length baselines) rows ->
  exists rows', waveform_step baselines rows p = Ok rows'
    /\ forall ri, rows' !! ri
                  = (fun old => old ++ row_points baselines ri p)
                    <$> rows !! ri.
Proof.
  intros Hkeys. unfold waveform_step, row_points, centroid_y.
  fold (items_of p) (color_of p) (width_of p).
  rewrite waveform_skip_total. cbn [rbind].
  destruct (waveform_ruleb p) eqn:Hrule; cbn [negb andb].
  2: { exists rows. split; [reflexivity|]. intros ri.
    destruct (nearest_row _ _). now rewrite fmap_app_nil. }
  assert (Hlen : (40 <= length (items_of p))%nat).
  { apply waveform_ruleb_iff in Hrule. apply Hrule. }
  replace (length (items_of p) =? 1)%nat with false
    by (symmetry; apply Nat.eqb_neq; lia).
  destruct (extract_points (items_of p)) as [|q0 pts] eqn:Hpts.
  { exists rows. split; [reflexivity|]. intros ri.
    destruct (nearest_row _ _) as [m z].
    destruct ((0 <=? z)%Z && (z =? ri)%Z && xfloat_lt m 80);
      now rewrite fmap_app_nil. }
  destruct baselines as [|b0 bs].
  { rewrite nearest_row_nil. exists rows.
    split; [reflexivity|]. intros ri. simpl. now rewrite fmap_app_nil. }
  destruct (nearest_row_spec (np_mean (map snd (q0 :: pts))) (b0 :: bs))
    as (r & d & Hrow & b & Hb & Hnear); [discriminate|].
  rewrite Hrow. cbn [xfloat_lt].
  replace (0 <=? Z.of_nat r)%Z with true by (symmetry; apply Z.leb_le; lia).
  cbn [andb].
  destruct (Qltb d 80).
  - assert (Hr : (r < length (b0 :: bs))%nat) by (eapply lookup_lt_Some; eauto).
    destruct (proj2 (Hkeys (Z.of_nat r))) as [old Hold]; [lia|].
    unfold dict_item. rewrite Hold. cbn [rbind].
    eexists. split; [reflexivity|]. intros ri.
    destruct (decide (Z.of_nat r = ri)) as [<-|Hne].
    + rewrite lookup_insert_eq, Hold, Z.eqb_refl. reflexivity.
    + rewrite lookup_insert_ne by exact Hne.
      replace (Z.of_nat r =? ri)%Z with false
        by (symmetry; apply Z.eqb_neq; exact Hne).
      cbn [andb]. now rewrite fmap_app_nil.
  - exists rows. split; [reflexivity|]. intros ri.
    rewrite andb_false_r. cbn iota. now rewrite fmap_app_nil.
Qed.

Lemma rows_keyed_step (n : nat) (rows rows' : gmap Z (list (Q * Q)))
    (f : Z -> list (Q * Q) -> list (Q * Q)) :
  rows_keyed n rows ->
  (forall ri, rows' !! ri = f ri <$> rows !! ri) ->
  rows_keyed n rows'.
Proof.
  intros Hkeys Heq ri. rewrite Heq, fmap_is_Some. apply Hkeys.
Qed.

Lemma waveform_loop_lookup (baselines : list Q) (paths : list path)
    (rows : gmap Z (list (Q * Q))) :
  rows_keyed (length baselines) rows ->
  exists rows', waveform_loop baselines paths rows = Ok rows'
    /\ forall ri, rows' !! ri
                  = (fun old => old ++ flat_map (row_points baselines ri) paths)
                    <$> rows !! ri.
Proof.
  revert rows. induction paths as [|p paths IH]; intros rows Hkeys.
  - exists rows. split; [reflexivity|]. intros ri. simpl.
    now rewrite fmap_app_nil.
  - destruct (waveform_step_lookup baselines rows p Hkeys)
      as (rows1 & Hstep & Hlook1).
    destruct (IH rows1) as (rows2 & Hloop & Hlook2).
    { eapply rows_keyed_step; [exact Hkeys|exact Hlook1]. }
    exists rows2. cbn [waveform_loop]. rewrite Hstep. cbn [rbind].
    split; [exact Hloop|]. intros ri. rewrite Hlook2, Hlook1.
    destruct (rows !! ri); simpl; [|reflexivity].
    now rewrite <- app_assoc.
Qed.

(** The rows that the extractor returns: it never raises, and row [ri]
    is the sorted concatenation of what each path adds to it. *)
Lemma extract_rows_lookup (pg : page) (baselines : list Q) :
  exists rows, extract_ecg_waveform_rows pg baselines = Ok rows
    /\ forall ri, rows !! ri
         = if decide (0 <= ri < Z.of_nat (length baselines))%Z
           then Some (sort_by_x
                        (flat_map (row_points baselines ri) (get_drawings pg)))
           else None.
Proof.
  unfold extract_ecg_waveform_rows.
  destruct (waveform_loop_lookup baselines (get_drawings pg)
              (empty_rows (length baselines)) (empty_rows_keyed _))
    as (rows' & Hloop & Hlook).
  rewrite Hloop. cbn [rbind]. eexists. split; [reflexivity|]. intros ri.
  rewrite lookup_fmap, Hlook, empty_rows_lookup.
  case_decide; reflexivity.
Qed.

End ExtractorFacts.

Section AssignmentFacts.
Local Open Scope Q_scope.

Lemma nearest_row_of_baseline (c : Q) (baselines : list Q) (r : nat) (d : Q) :
  nearest_baseline c baselines r d ->
  nearest_row c baselines = (Fin d, Z.of_nat r).
Proof.
  intros Hnear.
  assert (Hne : baselines <> []).
  { destruct Hnear as (b & Hb & _). intros ->. discriminate. }
  destruct (nearest_row_spec c baselines Hne) as (r' & d' & Hrow & Hnear').
  assert (r = r') as <- by (eapply nearest_baseline_unique; eauto).
  destruct Hnear as (b & Hb & -> & _), Hnear' as (b' & Hb' & -> & _).
  congruence.
Qed.

(** What a path under the waveform rule adds: its points, whole, to the
    nearest row when that row is nearer than 80, and nothing elsewhere. *)
Lemma row_points_nearest (baselines : list Q) (p : path) (r : nat) (d : Q)
    (ri : Z) :
  waveform_rule p ->
  nearest_baseline (centroid_y p) baselines r d ->
  row_points baselines ri p
  = if decide (ri = Z.of_nat r)
    then (if Qltb d 80 then extract_points (items_of p) else [])
    else [].
Proof.
  intros Hrule Hnear. unfold row_points.
  rewrite (nearest_row_of_baseline _ _ _ _ Hnear).
  apply waveform_ruleb_iff in Hrule. rewrite Hrule. cbn [andb xfloat_lt].
  replace (0 <=? Z.of_nat r)%Z with true by (symmetry; apply Z.leb_le; lia).
  cbn [andb]. case_decide as Hri.
  - subst ri. now rewrite Z.eqb_refl.
  - replace (Z.of_nat r =? ri)%Z with false
      by (symmetry; apply Z.eqb_neq; congruence).
    reflexivity.
Qed.

Lemma row_points_not_rule (baselines : list Q) (p : path) (ri : Z) :
  ~ waveform_rule p -> row_points baselines ri p = [].
Proof.
  intros Hrule. unfold row_points.
  destruct (nearest_row _ _) as [m z].
  destruct (waveform_ruleb p) eqn:E; [|reflexivity].
  apply waveform_ruleb_iff in E. contradiction.
Qed.

Lemma row_points_no_points (baselines : list Q) (p : path) (ri : Z) :
  extract_points (items_of p) = [] -> row_points baselines ri p = [].
Proof.
  intros Hpts. unfold row_points. rewrite Hpts.
  destruct (nearest_row _ _) as [m z]. now destruct (_ && _ && _ && _).
Qed.

Lemma step_unchanged (baselines : list Q) (rows : gmap Z (list (Q * Q)))
    (p : path) :
  rows_keyed (length baselines) rows ->
  (forall ri, row_points baselines ri p = []) ->
  waveform_step baselines rows p = Ok rows.
Proof.
  intros Hkeys Hnone.
  destruct (waveform_step_lookup baselines rows p Hkeys) as (rows' & -> & Hl).
  f_equal. apply map_eq. intros ri. rewrite Hl, Hnone.
  apply fmap_app_nil.
Qed.

End AssignmentFacts.

(** ** The waveform rule and the assignment to rows *)

(** C3 (amended). A path is collected exactly when it is under the
    waveform rule of the code: stroke width strictly between 0.35 and
    0.45, stroke colour exactly pure black, at least 40 draw commands.
    A path outside the rule leaves the rows untouched.  The points of a
    path under the rule go, whole, to the single nearest row (the first
    one among equally near rows) when its distance to the mean y of the
    points is strictly under 80; at distance 80 or more the rows are
    untouched and nothing is raised. *)
Theorem waveform_step_assigns (baselines : list Q)
    (rows : gmap Z (list (Q * Q))) (p : path) :
  rows_keyed (length baselines) rows ->
  (~ waveform_rule p -> waveform_step baselines rows p = Ok rows)
  /\ (waveform_rule p -> extract_points (items_of p) = [] ->
      waveform_step baselines rows p = Ok rows)
  /\ (baselines <> [] ->
      exists r d, nearest_baseline (centroid_y p) baselines r d)
  /\ (forall r r' d d',
        nearest_baseline (centroid_y p) baselines r d ->
        nearest_baseline (centroid_y p) baselines r' d' -> r = r')
  /\ (waveform_rule p -> extract_points (items_of p) <> [] ->
      forall r d, nearest_baseline (centroid_y p) baselines r d ->
        ((d < 80)%Q ->
           exists old, rows !! Z.of_nat r = Some old
             /\ waveform_step baselines rows p
                = Ok (<[Z.of_nat r := old ++ extract_points (items_of p)]> rows))
        /\ ((80 <= d)%Q -> waveform_step baselines rows p = Ok rows)).
Proof.
  intros Hkeys. split; [|split; [|split; [|split]]].
  - intros Hrule. apply step_unchanged; [exact Hkeys|].
    intros ri. now apply row_points_not_rule.
  - intros _ Hpts. apply step_unchanged; [exact Hkeys|].
    intros ri. now apply row_points_no_points.
  - intros Hne.
    destruct (nearest_row_spec (centroid_y p) baselines Hne)
      as (r & d & _ & Hnear). eauto.
  - intros r r' d d'. apply nearest_baseline_unique.
  - intros Hrule Hpts r d Hnear. split.
    + intros Hd. apply Qltb_lt in Hd.
      assert (Hr : (r < length baselines)%nat).
      { destruct Hnear as (b & Hb & _). eapply lookup_lt_Some; eauto. }
      destruct (proj2 (Hkeys (Z.of_nat r))) as [old Hold]; [lia|].
      exists old. split; [exact Hold|].
      destruct (waveform_step_lookup baselines rows p Hkeys)
        as (rows' & -> & Hl).
      f_equal. apply map_eq. intros ri.
      rewrite Hl, (row_points_nearest _ _ _ _ ri Hrule Hnear), Hd.
      case_decide as Hri.
      * subst ri. now rewrite lookup_insert_eq, Hold.
      * rewrite lookup_insert_ne by congruence. apply fmap_app_nil.
    + intros Hd. apply Qltb_ge in Hd.
      apply step_unchanged; [exact Hkeys|]. intros ri.
      rewrite (row_points_nearest _ _ _ _ ri Hrule Hnear), Hd.
      now case_decide.
Qed.

Lemma waveform_step_assigns_witness :
  rows_keyed (length sample_baselines) (empty_rows 4)
  /\ waveform_step sample_baselines (empty_rows 4) black_trace
     = Ok (<[0%Z := extract_points (items_of black_trace)]> (empty_rows 4)).
Proof.
  assert (Hkeys : rows_keyed (length sample_baselines) (empty_rows 4))
    by exact (empty_rows_keyed 4).
  split; [exact Hkeys|].
  destruct (waveform_step_assigns sample_baselines (empty_rows 4) black_trace
              Hkeys) as (_ & _ & _ & _ & Hin).
  assert (Hrule : waveform_rule black_trace).
  { apply waveform_ruleb_iff. vm_compute. reflexivity. }
  assert (Hpts : extract_points (items_of black_trace) <> []).
  { vm_compute. discriminate. }
  assert (Hnear : nearest_baseline (centroid_y black_trace) sample_baselines
                    0 (Qabs (centroid_y black_trace - inject_Z 100))).
  { exists (inject_Z 100). split; [reflexivity|]. split; [reflexivity|].
    split.
    - intros j b' Hj.
      do 4 (destruct j as [|j]; [injection Hj as <-; apply Qle_bool_iff;
                                  vm_compute; reflexivity|]).
      discriminate Hj.
    - intros j b' Hj. lia. }
  destruct (Hin Hrule Hpts _ _ Hnear) as [Hlt _].
  destruct Hlt as (old & Hold & Hstep).
  { apply Qltb_lt. vm_compute. reflexivity. }
  rewrite Hstep. vm_compute in Hold. injection Hold as <-. reflexivity.
Defined.

(** C3, as stated, fails: a red path with width 0.4 and 40 line commands,
    whose points lie within 80 of the first baseline, is under the rule
    of the claim, yet the extractor returns every row empty; and the same
    path drawn in pure black, which the claim excludes, is collected into
    row 0. *)
Lemma non_black_waveform_not_collected :
  non_black_waveform_rule red_trace
  /\ extract_points (items_of red_trace) <> []
  /\ (Qabs (centroid_y red_trace - inject_Z 100) < 80)%Q
  /\ extract_ecg_waveform_rows (mkPage [red_trace]) sample_baselines
     = Ok (empty_rows 4)
  /\ ~ non_black_waveform_rule black_trace
  /\ extract_ecg_waveform_rows (mkPage [black_trace]) sample_baselines
     = Ok (<[0%Z := sort_by_x (extract_points (items_of black_trace))]>
             (empty_rows 4)).
Proof.
  split; [|split; [|split; [|split; [|split]]]].
  - split; [|split].
    + intros (r & g & b & Heq & Hr & _). vm_compute in Heq.
      injection Heq as <- <- <-. vm_compute in Hr. discriminate.
    + exists (4 # 10)%Q. split; [reflexivity|].
      split; apply Qltb_lt; vm_compute; reflexivity.
    + apply Nat.leb_le. vm_compute. reflexivity.
  - vm_compute. discriminate.
  - apply Qltb_lt. vm_compute. reflexivity.
  - vm_compute. reflexivity.
  - intros [Hnb _]. apply Hnb. exists 0%Q, 0%Q, 0%Q.
    split; [reflexivity|]. repeat split; reflexivity.
  - vm_compute. reflexivity.
Qed.

(** ** Point extraction and the order within a row *)

Section OrderFacts.
Local Open Scope Q_scope.

Lemma extract_points_snoc (items : list item) (it : item) :
  extract_points (items ++ [it]) = points_step (extract_points items) it.
Proof. unfold extract_points. now rewrite fold_left_app. Qed.

Lemma insert_by_x_perm (p : Q * Q) (l : list (Q * Q)) :
  Permutation (insert_by_x p l) (p :: l).
Proof.
  induction l as [|q l IH]; simpl; [reflexivity|].
  destruct (Qle_bool (fst p) (fst q)); [reflexivity|].
  rewrite IH. apply perm_swap.
Qed.

Lemma sort_by_x_perm (l : list (Q * Q)) : Permutation (sort_by_x l) l.
Proof.
  induction l as [|p l IH]; simpl; [reflexivity|].
  rewrite insert_by_x_perm. now apply perm_skip.
Qed.

Lemma insert_by_x_hd (p a : Q * Q) (l : list (Q * Q)) :
  x_le a p -> HdRel x_le a l -> HdRel x_le a (insert_by_x p l).
Proof.
  intros Hap Hal. destruct l as [|q l]; simpl; [now constructor|].
  destruct (Qle_bool (fst p) (fst q)); constructor; [exact Hap|].
  now inversion Hal.
Qed.

Lemma insert_by_x_sorted (p : Q * Q) (l : list (Q * Q)) :
  Sorted x_le l -> Sorted x_le (insert_by_x p l).
Proof.
  induction 1 as [|q l Hs IH Hhd]; simpl; [repeat constructor|].
  destruct (Qle_bool (fst p) (fst q)) eqn:E.
  - constructor; [now constructor|]. constructor.
    now apply Qle_bool_iff.
  - constructor; [exact IH|]. apply insert_by_x_hd; [|exact Hhd].
    unfold x_le. apply Qlt_le_weak. apply Qltb_lt. unfold Qltb.
    now rewrite E.
Qed.

Lemma sort_by_x_sorted (l : list (Q * Q)) : Sorted x_le (sort_by_x l).
Proof.
  induction l as [|p l IH]; simpl; [constructor|].
  now apply insert_by_x_sorted.
Qed.

(** The sort is stable: the points with a given x keep their order. *)
Lemma insert_by_x_stable (k : Q) (p : Q * Q) (l : list (Q * Q)) :
  List.filter (fun q => Qeq_bool (fst q) k) (insert_by_x p l)
  = List.filter (fun q => Qeq_bool (fst q) k) (p :: l).
Proof.
  induction l as [|q l IH]; [reflexivity|].
  cbn [insert_by_x]. destruct (Qle_bool (fst p) (fst q)) eqn:E; [reflexivity|].
  cbn [List.filter] in *. rewrite IH.
  destruct (Qeq_bool (fst p) k) eqn:Ep; [|reflexivity].
  destruct (Qeq_bool (fst q) k) eqn:Eq; [|reflexivity].
  exfalso. apply Qeq_bool_true in Ep, Eq.
  assert (Hle : fst p <= fst q) by (rewrite Ep, Eq; apply Qle_refl).
  apply Qle_bool_iff in Hle. congruence.
Qed.

Lemma sort_by_x_stable (k : Q) (l : list (Q * Q)) :
  List.filter (fun q => Qeq_bool (fst q) k) (sort_by_x l)
  = List.filter (fun q => Qeq_bool (fst q) k) l.
Proof.
  induction l as [|p l IH]; [reflexivity|].
  cbn [sort_by_x fold_right]. rewrite insert_by_x_stable.
  cbn [List.filter]. fold (sort_by_x l). now rewrite IH.
Qed.

End OrderFacts.

(** C4. Point extraction walks the commands in order: a command that is
    not a line adds nothing; a line adds its first endpoint when no point
    was appended yet or when that endpoint is more than 0.001 away, in x
    or in y, from the last point appended, and then always adds its
    second endpoint.  The extractor never raises, and each row it returns
    is ascending in x and is a rearrangement of the concatenation of the
    points of the paths assigned to that row. *)
Theorem points_walk_and_rows_sorted :
  extract_points [] = []
  /\ (forall items p1 p2,
        extract_points items = [] ->
        extract_points (items ++ [Line p1 p2])
        = [(pt_x p1, pt_y p1); (pt_x p2, pt_y p2)])
  /\ (forall items p1 p2 lp,
        last (extract_points items) = Some lp ->
        (1 # 1000 < Qabs (fst lp - pt_x p1)
         \/ 1 # 1000 < Qabs (snd lp - pt_y p1))%Q ->
        extract_points (items ++ [Line p1 p2])
        = extract_points items ++ [(pt_x p1, pt_y p1); (pt_x p2, pt_y p2)])
  /\ (forall items p1 p2 lp,
        last (extract_points items) = Some lp ->
        (Qabs (fst lp - pt_x p1) <= 1 # 1000)%Q ->
        (Qabs (snd lp - pt_y p1) <= 1 # 1000)%Q ->
        extract_points (items ++ [Line p1 p2])
        = extract_points items ++ [(pt_x p2, pt_y p2)])
  /\ (forall items it,
        (forall p1 p2, it <> Line p1 p2) ->
        extract_points (items ++ [it]) = extract_points items)
  /\ (forall pg baselines,
        exists rows,
          extract_ecg_waveform_rows pg baselines = Ok rows
          /\ forall ri l, rows !! ri = Some l ->
               Sorted x_le l
               /\ Permutation l (flat_map (row_points baselines ri)
                                          (get_drawings pg))).
Proof.
  split; [reflexivity|]. split; [|split; [|split; [|split]]].
  - intros items p1 p2 Hnil. rewrite extract_points_snoc, Hnil. reflexivity.
  - intros items p1 p2 lp Hlast Hfar.
    rewrite extract_points_snoc. unfold points_step. rewrite Hlast.
    replace (_ || _) with true; [now rewrite <- app_assoc|].
    symmetry. apply orb_true_iff.
    destruct Hfar as [H|H]; [left|right]; now apply Qltb_lt.
  - intros items p1 p2 lp Hlast Hx Hy.
    rewrite extract_points_snoc. unfold points_step. rewrite Hlast.
    apply Qltb_ge in Hx, Hy. now rewrite Hx, Hy.
  - intros items it Hit. rewrite extract_points_snoc.
    destruct it; try reflexivity. now destruct (Hit p1 p2).
  - intros pg baselines.
    destruct (extract_rows_lookup pg baselines) as (rows & Hrows & Hl).
    exists rows. split; [exact Hrows|]. intros ri l Hri.
    rewrite Hl in Hri. case_decide; [|discriminate].
    injection Hri as <-. split.
    + apply sort_by_x_sorted.
    + apply sort_by_x_perm.
Qed.

Lemma points_walk_and_rows_sorted_witness :
  exists rows,
    extract_ecg_waveform_rows (mkPage [far_trace; black_trace; red_trace])
      sample_baselines = Ok rows
    /\ rows !! 0%Z = Some (sort_by_x (extract_points (items_of black_trace)))
    /\ Sorted x_le (sort_by_x (extract_points (items_of black_trace))).
Proof.
  destruct points_walk_and_rows_sorted as (_ & _ & _ & _ & _ & Hrows).
  destruct (Hrows (mkPage [far_trace; black_trace; red_trace]) sample_baselines)
    as (rows & Hex & Hsorted).
  exists rows. split; [exact Hex|].
  assert (Hl : rows !! 0%Z
               = Some (sort_by_x (extract_points (items_of black_trace)))).
  { vm_compute in Hex. injection Hex as <-. vm_compute. reflexivity. }
  split; [exact Hl|]. exact (proj1 (Hsorted _ _ Hl)).
Defined.

(** ** Deduplication *)

Section DedupFacts.
Local Open Scope Q_scope.

Lemma dedup_fold (rest acc : list (Q * Q)) (lp : Q * Q) :
  fold_left dedup_step rest (acc ++ [lp])
  = acc ++ lp :: dedup_from lp rest.
Proof.
  revert acc lp. induction rest as [|p rest IH]; intros acc lp; simpl.
  - reflexivity.
  - unfold dedup_step at 2. rewrite last_snoc.
    destruct (Qltb (1 # 100) (Qabs (fst p - fst lp))).
    + rewrite IH. now rewrite <- app_assoc.
    + apply IH.
Qed.

Lemma dedup_cons (p0 : Q * Q) (rest : list (Q * Q)) :
  dedup (p0 :: rest) = Ok (p0 :: dedup_from p0 rest).
Proof. unfold dedup. f_equal. apply (dedup_fold rest [] p0). Qed.

Lemma dedup_from_spaced (lp : Q * Q) (rest : list (Q * Q)) :
  spaced lp (dedup_from lp rest).
Proof.
  revert lp. induction rest as [|p rest IH]; intros lp; simpl; [exact I|].
  destruct (Qltb (1 # 100) (Qabs (fst p - fst lp))) eqn:E; [|apply IH].
  simpl. split; [now apply Qltb_lt|apply IH].
Qed.

Lemma dedup_from_fixed (lp : Q * Q) (l : list (Q * Q)) :
  spaced lp l -> dedup_from lp l = l.
Proof.
  revert lp. induction l as [|p l IH]; intros lp; simpl; [reflexivity|].
  intros [Hp Hl]. apply Qltb_lt in Hp. rewrite Hp. f_equal. now apply IH.
Qed.

Lemma dedup_snoc (l : list (Q * Q)) (p0 p : Q * Q) :
  fold_left dedup_step (l ++ [p]) [p0]
  = dedup_step (fold_left dedup_step l [p0]) p.
Proof. now rewrite fold_left_app. Qed.

End DedupFacts.

(** C5. The per-row deduplication keeps the first point, then drops a
    point when its x is within 0.01 of the last point kept and keeps it
    otherwise; applying it to its own result changes nothing. *)
Theorem dedup_idempotent (points : list (Q * Q)) :
  rbind (dedup points) dedup = dedup points
  /\ (forall p0 rest, points = p0 :: rest ->
        exists kept, dedup points = Ok (p0 :: kept))
  /\ (forall d lp p,
        dedup points = Ok d -> last d = Some lp ->
        ((1 # 100 < Qabs (fst p - fst lp))%Q ->
           dedup (points ++ [p]) = Ok (d ++ [p]))
        /\ ((Qabs (fst p - fst lp) <= 1 # 100)%Q ->
           dedup (points ++ [p]) = Ok d)).
Proof.
  split; [|split].
  - destruct points as [|p0 rest]; [reflexivity|].
    rewrite dedup_cons. cbn [rbind]. rewrite dedup_cons.
    now rewrite dedup_from_fixed by apply dedup_from_spaced.
  - intros p0 rest ->. rewrite dedup_cons. eauto.
  - intros d lp p Hd Hlast.
    destruct points as [|p0 rest]; [discriminate|].
    cbn [dedup] in Hd. injection Hd as Hd.
    change ((p0 :: rest) ++ [p]) with (p0 :: (rest ++ [p])).
    cbn [dedup]. rewrite dedup_snoc, Hd. unfold dedup_step. rewrite Hlast.
    split; intros H.
    + apply Qltb_lt in H. now rewrite H.
    + apply Qltb_ge in H. now rewrite H.
Qed.

Lemma dedup_idempotent_witness :
  dedup [(1, 5); (1 + (1 # 200), 6); (2, 7); (2, 8); (3, 9)]%Q
  = Ok [(1, 5); (2, 7); (3, 9)]%Q
  /\ dedup [(1, 5); (2, 7); (3, 9)]%Q = Ok [(1, 5); (2, 7); (3, 9)]%Q.
Proof.
  assert (H : dedup [(1, 5); (1 + (1 # 200), 6); (2, 7); (2, 8); (3, 9)]%Q
              = Ok [(1, 5); (2, 7); (3, 9)]%Q) by (vm_compute; reflexivity).
  split; [exact H|].
  pose proof (proj1 (dedup_idempotent
      [(1, 5); (1 + (1 # 200), 6); (2, 7); (2, 8); (3, 9)]%Q)) as Hidem.
  rewrite H in Hidem. exact Hidem.
Defined.

(** ** Voltage conversion *)

Section VoltageFacts.
Local Open Scope Q_scope.

Lemma CAL_nonzero : Qeq_bool CAL_PT_PER_MV 0 = false.
Proof. reflexivity. Qed.

Lemma points_to_voltage_map (points : list (Q * Q)) (baseline_y : Q) :
  points_to_voltage points baseline_y CAL_PT_PER_MV
  = Ok (map (voltage_of baseline_y) points).
Proof.
  induction points as [|[x y] points IH]; [reflexivity|].
  cbn [points_to_voltage map]. unfold py_div at 1. rewrite CAL_nonzero.
  cbn [rbind]. rewrite IH. reflexivity.
Qed.

End VoltageFacts.



(** ** The driver *)

Section MainFacts.
Local Open Scope Q_scope.

Lemma py_min_fold (rest : list Q) (v : Q) :
  let r := fold_left (fun m w => if Qltb w m then w else m) rest v in
  (r = v \/ In r rest) /\ r <= v /\ forall w, In w rest -> r <= w.
Proof.
  revert v. induction rest as [|w rest IH]; intros v; simpl.
  - split; [now left|]. split; [apply Qle_refl|contradiction].
  - destruct (IH (if Qltb w v then w else v)) as (Hin & Hle & Hall).
    destruct (Qltb w v) eqn:E; bool_hyps.
    + split; [right; destruct Hin; auto|].
      split; [eapply Qle_trans; [exact Hle|now apply Qlt_le_weak]|].
      intros x [<-|Hx]; auto.
    + split; [destruct Hin; auto|]. split; [exact Hle|].
      intros x [<-|Hx]; [eapply Qle_trans; eauto|auto].
Qed.

Lemma py_max_fold (rest : list Q) (v : Q) :
  let r := fold_left (fun m w => if Qltb m w then w else m) rest v in
  (r = v \/ In r rest) /\ v <= r /\ forall w, In w rest -> w <= r.
Proof.
  revert v. induction rest as [|w rest IH]; intros v; simpl.
  - split; [now left|]. split; [apply Qle_refl|contradiction].
  - destruct (IH (if Qltb v w then w else v)) as (Hin & Hle & Hall).
    destruct (Qltb v w) eqn:E; bool_hyps.
    + split; [right; destruct Hin; auto|].
      split; [eapply Qle_trans; [|exact Hle]; now apply Qlt_le_weak|].
      intros x [<-|Hx]; auto.
    + split; [destruct Hin; auto|]. split; [exact Hle|].
      intros x [<-|Hx]; [eapply Qle_trans; eauto|auto].
Qed.

Lemma py_min_spec (l : list Q) :
  l <> [] -> exists m, py_min l = Ok m /\ is_minimum m l.
Proof.
  destruct l as [|v rest]; [congruence|]. intros _.
  eexists. split; [reflexivity|].
  destruct (py_min_fold rest v) as (Hin & Hle & Hall).
  split.
  - destruct Hin as [->|Hin]; [now left|now right].
  - intros w [<-|Hw]; auto.
Qed.

Lemma py_max_spec (l : list Q) :
  l <> [] -> exists m, py_max l = Ok m /\ is_maximum m l.
Proof.
  destruct l as [|v rest]; [congruence|]. intros _.
  eexists. split; [reflexivity|].
  destruct (py_max_fold rest v) as (Hin & Hle & Hall).
  split.
  - destruct Hin as [->|Hin]; [now left|now right].
  - intros w [<-|Hw]; auto.
Qed.

Lemma row_deduped_nil (points : list (Q * Q)) :
  row_deduped points = [] <-> points = [].
Proof. destruct points; simpl; split; congruence. Qed.

(** One turn of the loop over the rows: it prints one line and yields
    the voltages of the row; it does not raise. *)
Lemma row_voltages_run (rows : gmap Z (list (Q * Q))) (baselines : list Q)
    (ri : Z) (tr : list event) :
  is_Some (rows !! ri) -> is_Some (baselines !! Z.to_nat ri) ->
  exists line,
    row_voltages rows baselines ri tr
    = (Ok (row_signal rows baselines ri), tr ++ [print line]).
Proof.
  intros [points Hpoints] [bl Hbl].
  unfold row_voltages, row_signal, mbind', lift, dict_item, list_item.
  rewrite Hpoints, Hbl.
  destruct points as [|p0 rest].
  - eexists. reflexivity.
  - rewrite dedup_cons, points_to_voltage_map. cbn [map fst lookup].
    change ((fst p0 :: map fst (dedup_from p0 rest)) !! Z.to_nat 0)
      with (Some (fst p0)).
    destruct (last (p0 :: dedup_from p0 rest)) as [lp|] eqn:Hlast.
    2: { apply last_None in Hlast. discriminate. }
    destruct (py_min_spec (voltage_of bl p0
                           :: map (voltage_of bl) (dedup_from p0 rest)))
      as (lo & -> & _); [discriminate|].
    destruct (py_max_spec (voltage_of bl p0
                           :: map (voltage_of bl) (dedup_from p0 rest)))
      as (hi & -> & _); [discriminate|].
    eexists. reflexivity.
Qed.

Lemma rows_loop_run (rows : gmap Z (list (Q * Q))) (baselines : list Q)
    (ris : list Z) (acc : list Q) (tr : list event) :
  (forall ri, In ri ris ->
     is_Some (rows !! ri) /\ is_Some (baselines !! Z.to_nat ri)) ->
  exists lines,
    List.Forall (fun e => is_print e = true) lines
    /\ rows_loop rows baselines ris acc tr
       = (Ok (acc ++ flat_map (row_signal rows baselines) ris), tr ++ lines).
Proof.
  revert acc tr. induction ris as [|ri ris IH]; intros acc tr Hin.
  - exists []. split; [constructor|]. simpl. unfold mret.
    now rewrite !app_nil_r.
  - destruct (Hin ri (or_introl eq_refl)) as [Hrow Hbl].
    destruct (row_voltages_run rows baselines ri tr Hrow Hbl) as [line Hrun].
    destruct (IH (acc ++ row_signal rows baselines ri) (tr ++ [print line]))
      as (lines & Hprints & Hloop).
    { intros rj Hrj. apply Hin. now right. }
    exists (print line :: lines). split; [now constructor|].
    cbn [rows_loop flat_map]. unfold mbind' at 1. rewrite Hrun, Hloop.
    now rewrite <- !app_assoc.
Qed.

Lemma sink_calls_app (tr tr' : list event) :
  sink_calls (tr ++ tr') = sink_calls tr ++ sink_calls tr'.
Proof. apply List.filter_app. Qed.

Lemma sink_calls_prints (lines : list event) :
  List.Forall (fun e => is_print e = true) lines -> sink_calls lines = [].
Proof.
  induction 1 as [|e lines He _ IH]; [reflexivity|].
  unfold sink_calls in *. simpl. now rewrite He, IH.
Qed.

Lemma in_py_range (n : nat) (ri : Z) :
  In ri (py_range n) <-> (0 <= ri < Z.of_nat n)%Z.
Proof.
  unfold py_range. rewrite in_map_iff. split.
  - intros (i & <- & Hi). apply in_seq in Hi. lia.
  - intros Hri. exists (Z.to_nat ri). split; [lia|]. apply in_seq. lia.
Qed.

(** The rest of a run of [write_edf] does not depend on the trace so
    far. *)
Lemma write_edf_run (signal : list Q) (tr : list event) (lo hi : Q) :
  np_min signal = Ok lo -> np_max signal = Ok hi ->
  write_edf signal tr = (Ok tt, tr ++ snd (write_edf signal [])).
Proof.
  intros Hlo Hhi. unfold write_edf, mbind', emit, lift.
  rewrite Hlo, Hhi. cbn [snd app]. now rewrite <- !app_assoc.
Qed.

(** The calls of [write_edf] that set the physical range and write the
    samples. *)
Lemma write_edf_calls (signal : list Q) (lo hi : Q) :
  np_min signal = Ok lo -> np_max signal = Ok hi ->
  let tr := snd (write_edf signal []) in
  In (setPhysicalMinimum 0 (lo - (1 # 10))) tr
  /\ In (setPhysicalMaximum 0 (hi + (1 # 10))) tr
  /\ In (writeSamples [signal]) tr
  /\ In close tr
  /\ (forall v, In (setPhysicalMinimum 0 v) tr -> v = lo - (1 # 10))
  /\ (forall v, In (setPhysicalMaximum 0 v) tr -> v = hi + (1 # 10)).
Proof.
  intros Hlo Hhi. unfold write_edf, mbind', emit, lift.
  rewrite Hlo, Hhi. cbn [snd app].
  repeat split; try (cbn [In]; tauto).
  - intros v Hv. cbn [In] in Hv.
    repeat (destruct Hv as [Hv|Hv]; [try discriminate Hv; now injection Hv|]).
    contradiction.
  - intros v Hv. cbn [In] in Hv.
    repeat (destruct Hv as [Hv|Hv]; [try discriminate Hv; now injection Hv|]).
    contradiction.
Qed.

(** The lines [main] prints between the baselines and the voltage
    range. *)
Lemma main_run (doc : list page) (pg : page) (baselines : list Q) :
  doc !! 1%nat = Some pg ->
  extract_baselines pg = Ok (Some baselines) ->
  baselines <> [] ->
  exists rows lines,
    extract_ecg_waveform_rows pg baselines = Ok rows
    /\ List.Forall (fun e => is_print e = true) lines
    /\ let signal :=
         flat_map (row_signal rows baselines) (py_range (length baselines)) in
       (signal = [] -> main doc = (Raise ValueError, lines))
       /\ (forall lo hi, np_min signal = Ok lo -> np_max signal = Ok hi ->
             main doc
             = (Ok tt, lines ++ print (OutVoltageRange lo hi)
                             :: snd (write_edf signal [])))
       /\ In (print (OutTotalSamples (length signal))) lines
       /\ In (print (OutDuration (inject_Z (Z.of_nat (length signal))
                                  / inject_Z SAMPLE_RATE))) lines.
Proof.
  intros Hpg Hbl Hne.
  destruct (extract_rows_lookup pg baselines) as (rows & Hrows & Hl).
  destruct (rows_loop_run rows baselines (py_range (length baselines)) []
              [print (OutBaselines baselines)]) as (lines & Hprints & Hloop).
  { intros ri Hri. apply in_py_range in Hri. split.
    - rewrite Hl. case_decide; [eauto|lia].
    - apply lookup_lt_is_Some. lia. }
  cbn [app] in Hloop.
  set (signal := flat_map (row_signal rows baselines)
                          (py_range (length baselines))) in *.
  exists rows.
  exists (print (OutBaselines baselines) :: lines
          ++ [print (OutTotalSamples (length signal));
              print (OutDuration (inject_Z (Z.of_nat (length signal))
                                  / inject_Z SAMPLE_RATE));
              print (OutSamplingRate SAMPLE_RATE)]).
  split; [exact Hrows|]. split.
  { constructor; [reflexivity|]. apply List.Forall_app. split; [exact Hprints|].
    repeat constructor. }
  assert (Hmain : main doc
    = mbind' (lift (np_min signal)) (fun v_min =>
        mbind' (lift (np_max signal)) (fun v_max =>
          mbind' (emit (print (OutVoltageRange v_min v_max)))
                 (fun _ => write_edf signal)))
        (print (OutBaselines baselines) :: lines
          ++ [print (OutTotalSamples (length signal));
              print (OutDuration (inject_Z (Z.of_nat (length signal))
                                  / inject_Z SAMPLE_RATE));
              print (OutSamplingRate SAMPLE_RATE)])).
  { unfold main, main_from. unfold mbind' at 1. unfold lift at 1, list_item.
    change (Z.to_nat 1) with 1%nat. rewrite Hpg.
    unfold mbind' at 1. unfold lift at 1. rewrite Hbl.
    destruct baselines as [|b0 bs]; [congruence|].
    unfold mbind' at 1. unfold emit at 1. cbn [app].
    unfold mbind' at 1. unfold lift at 1. rewrite Hrows.
    unfold mbind' at 1. rewrite Hloop.
    unfold mbind' at 1. unfold emit at 1.
    unfold mbind' at 1. unfold emit at 1.
    unfold mbind' at 1. unfold emit at 1.
    cbn [app]. now rewrite <- !app_assoc. }
  rewrite Hmain. cbv zeta. split; [|split; [|split]].
  - intros Hnil. change (signal = []) in Hnil. rewrite Hnil. reflexivity.
  - intros lo hi Hlo Hhi.
    change (np_min signal = Ok lo) in Hlo.
    change (np_max signal = Ok hi) in Hhi. unfold mbind' at 1. unfold lift at 1. rewrite Hlo.
    unfold mbind' at 1. unfold lift at 1. rewrite Hhi.
    unfold mbind' at 1. unfold emit at 1.
    rewrite (write_edf_run signal _ lo hi Hlo Hhi).
    rewrite <- app_assoc. reflexivity.
  - right. apply in_or_app. right. now left.
  - right. apply in_or_app. right. right. now left.
Qed.

End MainFacts.

Section MainOutcomes.
Local Open Scope Q_scope.

Lemma extract_baselines_some (pg : page) (baselines : list Q) :
  extract_baselines pg = Ok (Some baselines) -> length baselines = 4%nat.
Proof.
  unfold extract_baselines. rewrite baselines_loop_find.
  destruct (List.find locatingb (get_drawings pg)) as [p|] eqn:Hfind;
    [|discriminate].
  intros [= <-]. destruct (find_split _ _ _ Hfind) as (_ & _ & _ & Hp & _).
  apply locatingb_iff in Hp. destruct Hp as [_ Hlen].
  rewrite length_firstn. lia.
Qed.

Lemma locatingb_false_iff (p : path) :
  locatingb p = false
  <-> (~ baseline_rule p \/ (length (surviving_ys p) < 4)%nat).
Proof.
  unfold locatingb. rewrite andb_false_iff, Nat.leb_gt.
  rewrite <- baseline_ruleb_iff. split.
  - intros [H|H]; [left; congruence|now right].
  - intros [H|H]; [left|now right].
    destruct (baseline_ruleb p); [now destruct H|reflexivity].
Qed.

Lemma extract_baselines_none (pg : page) :
  extract_baselines pg = Ok None <-> no_baseline_path pg.
Proof.
  unfold extract_baselines, no_baseline_path. rewrite baselines_loop_find.
  split.
  - intros H. destruct (List.find locatingb (get_drawings pg)) eqn:Hfind;
      [discriminate|].
    apply find_none_forall in Hfind.
    eapply List.Forall_impl; [|exact Hfind].
    intros p. apply locatingb_false_iff.
  - intros H. replace (List.find locatingb (get_drawings pg)) with (@None path);
      [reflexivity|].
    symmetry. apply find_none_forall.
    eapply List.Forall_impl; [|exact H]. intros p. apply locatingb_false_iff.
Qed.

(** The locator never raises. *)
Lemma extract_baselines_total (pg : page) :
  extract_baselines pg = Ok None
  \/ exists baselines, extract_baselines pg = Ok (Some baselines).
Proof.
  unfold extract_baselines. rewrite baselines_loop_find.
  destruct (List.find locatingb (get_drawings pg)); simpl; eauto.
Qed.

(** After the baselines are found, [main] either returns or raises
    [ValueError]. *)
Lemma main_after_baselines (doc : list page) (pg : page) (baselines : list Q) :
  doc !! 1%nat = Some pg ->
  extract_baselines pg = Ok (Some baselines) ->
  exists tr, main doc = (Ok tt, tr) \/ main doc = (Raise ValueError, tr).
Proof.
  intros Hpg Hbl.
  assert (Hne : baselines <> []).
  { apply extract_baselines_some in Hbl. now destruct baselines. }
  destruct (main_run doc pg baselines Hpg Hbl Hne)
    as (rows & lines & _ & _ & Hnil & Hok & _).
  destruct (flat_map (row_signal rows baselines)
                     (py_range (length baselines))) as [|v vs] eqn:Hsig.
  - eexists. right. now apply Hnil.
  - destruct (py_min_spec (v :: vs)) as (lo & Hlo & _); [discriminate|].
    destruct (py_max_spec (v :: vs)) as (hi & Hhi & _); [discriminate|].
    eexists. left. now apply Hok.
Qed.

End MainOutcomes.

(** ** Failure of the locator *)

(** C2. The locator returns nothing exactly when every path of the page
    either fails the baseline rule or holds fewer than four qualifying
    segments; [main] raises the baseline-not-found error exactly then,
    and it does so before anything is printed or written: the trace is
    empty, so no output file is produced and nothing else is tried. *)
Theorem baseline_not_found_fatal (doc : list page) (pg : page) :
  doc !! 1%nat = Some pg ->
  (extract_baselines pg = Ok None <-> no_baseline_path pg)
  /\ (fst (main doc) = baseline_not_found <-> no_baseline_path pg)
  /\ (no_baseline_path pg -> main doc = (baseline_not_found, [])).
Proof.
  intros Hpg.
  assert (Hfatal : no_baseline_path pg -> main doc = (baseline_not_found, [])).
  { intros Hnone. apply extract_baselines_none in Hnone.
    unfold main, main_from, mbind', lift, list_item.
    change (Z.to_nat 1) with 1%nat. rewrite Hpg, Hnone. reflexivity. }
  split; [apply extract_baselines_none|]. split; [|exact Hfatal].
  split.
  - intros Hraise.
    destruct (extract_baselines_total pg) as [Hnone|[baselines Hbl]].
    + now apply extract_baselines_none.
    + destruct (main_after_baselines doc pg baselines Hpg Hbl)
        as [tr [Hmain|Hmain]];
        rewrite Hmain in Hraise; discriminate Hraise.
  - intros Hnone. now rewrite (Hfatal Hnone).
Qed.

Lemma baseline_not_found_fatal_witness :
  no_grid_doc !! 1%nat = Some (mkPage decoy_paths)
  /\ main no_grid_doc = (baseline_not_found, []).
Proof.
  split; [reflexivity|].
  apply (baseline_not_found_fatal no_grid_doc (mkPage decoy_paths) eq_refl).
  apply extract_baselines_none. vm_compute. reflexivity.
Defined.

(** ** The reconstructed signal *)

Section SignalFacts.
Local Open Scope Q_scope.

Lemma signal_four_rows (rows : gmap Z (list (Q * Q))) (baselines : list Q) :
  length baselines = 4%nat ->
  flat_map (row_signal rows baselines) (py_range (length baselines))
  = row_signal rows baselines 0 ++ row_signal rows baselines 1
    ++ row_signal rows baselines 2 ++ row_signal rows baselines 3.
Proof.
  intros ->. cbn [py_range seq map flat_map Z.of_nat Pos.of_succ_nat Pos.succ].
  now rewrite app_nil_r.
Qed.

Lemma flat_map_nil_forall {A B} (f : A -> list B) (l : list A) :
  flat_map f l = [] <-> List.Forall (fun a => f a = []) l.
Proof.
  induction l as [|a l IH]; simpl.
  - split; auto.
  - split.
    + intros H. apply app_eq_nil in H. destruct H as [Ha Hl].
      constructor; [exact Ha|now apply IH].
    + intros H. inversion H as [|? ? Ha Hl]; subst.
      rewrite Ha. now apply IH.
Qed.

Lemma row_signal_empty_row (rows : gmap Z (list (Q * Q))) (baselines : list Q)
    (ri : Z) :
  rows !! ri = Some [] -> row_signal rows baselines ri = [].
Proof.
  intros H. unfold row_signal. rewrite H. now destruct (baselines !! _).
Qed.

Lemma row_signal_nonempty (rows : gmap Z (list (Q * Q))) (baselines : list Q)
    (ri : Z) (points : list (Q * Q)) :
  (0 <= ri < Z.of_nat (length baselines))%Z ->
  rows !! ri = Some points -> points <> [] ->
  row_signal rows baselines ri <> [].
Proof.
  intros Hri Hrow Hne. unfold row_signal. rewrite Hrow.
  destruct (lookup_lt_is_Some_2 baselines (Z.to_nat ri)) as [bl ->]; [lia|].
  destruct points; [congruence|]. discriminate.
Qed.

(** A successful run: the range set on the sink and the samples
    written. *)
Lemma main_success (doc : list page) (pg : page) (baselines : list Q)
    (rows : gmap Z (list (Q * Q))) :
  doc !! 1%nat = Some pg ->
  extract_baselines pg = Ok (Some baselines) ->
  extract_ecg_waveform_rows pg baselines = Ok rows ->
  let signal :=
    flat_map (row_signal rows baselines) (py_range (length baselines)) in
  signal <> [] ->
  exists lo hi tr,
    main doc = (Ok tt, tr)
    /\ is_minimum lo signal /\ is_maximum hi signal
    /\ In (setPhysicalMinimum 0 (lo - (1 # 10))) tr
    /\ In (setPhysicalMaximum 0 (hi + (1 # 10))) tr
    /\ (forall v, In (setPhysicalMinimum 0 v) tr -> v = lo - (1 # 10))
    /\ (forall v, In (setPhysicalMaximum 0 v) tr -> v = hi + (1 # 10))
    /\ In (writeSamples [signal]) tr
    /\ In (print (OutTotalSamples (length signal))) tr
    /\ In (print (OutDuration (inject_Z (Z.of_nat (length signal))
                               / inject_Z SAMPLE_RATE))) tr.
Proof.
  intros Hpg Hbl Hrows signal Hsig.
  assert (Hne : baselines <> []).
  { apply extract_baselines_some in Hbl. now destruct baselines. }
  destruct (main_run doc pg baselines Hpg Hbl Hne)
    as (rows' & lines & Hrows' & Hprints & _ & Hok & Htotal & Hdur).
  assert (rows' = rows) as -> by congruence.
  fold signal in Hok, Htotal, Hdur.
  destruct (py_min_spec signal Hsig) as (lo & Hlo & Hmin).
  destruct (py_max_spec signal Hsig) as (hi & Hhi & Hmax).
  destruct (write_edf_calls signal lo hi Hlo Hhi)
    as (Hpmin & Hpmax & Hwrite & _ & Humin & Humax).
  exists lo, hi. eexists. split; [exact (Hok lo hi Hlo Hhi)|].
  assert (Hnot : forall e, is_print e = false ->
            In e (lines ++ print (OutVoltageRange lo hi)
                        :: snd (write_edf signal [])) ->
            In e (snd (write_edf signal []))).
  { intros e He Hin. apply in_app_or in Hin. destruct Hin as [Hin|[<-|Hin]].
    - rewrite List.Forall_forall in Hprints. apply Hprints in Hin. congruence.
    - discriminate He.
    - exact Hin. }
  repeat split; try assumption; try (apply Hmin); try (apply Hmax);
    try (apply in_or_app; right; right; assumption);
    try (apply in_or_app; left; assumption).
  - intros v Hv. apply Humin. now apply Hnot.
  - intros v Hv. apply Humax. now apply Hnot.
Qed.

End SignalFacts.

(** C7. The samples written are the voltage sequences of rows 0, 1, 2
    and 3 one after the other: with deduplicated row counts n0..n3 the
    signal has n0+n1+n2+n3 samples, and sample [i] is sample [i] of row 0
    below n0, sample [i - n0] of row 1 below n0+n1, and so on.  A row
    without points adds no sample, and a row whose points are more than
    0.01 apart in x keeps them all.  A run whose signal is not empty
    returns, prints the number of samples over 300 as the duration and
    writes the signal; with row counts (3, 0, 2, 4) that is 9 samples and
    9/300 seconds. *)
Theorem signal_concatenates_rows (doc : list page) (pg : page)
    (baselines : list Q) (rows : gmap Z (list (Q * Q))) :
  doc !! 1%nat = Some pg ->
  extract_baselines pg = Ok (Some baselines) ->
  extract_ecg_waveform_rows pg baselines = Ok rows ->
  let v := row_signal rows baselines in
  let signal := v 0%Z ++ v 1%Z ++ v 2%Z ++ v 3%Z in
  let n0 := length (v 0%Z) in
  let n1 := length (v 1%Z) in
  let n2 := length (v 2%Z) in
  let n3 := length (v 3%Z) in
  (forall ri points bl,
     rows !! ri = Some points -> baselines !! Z.to_nat ri = Some bl ->
     v ri = map (fun p => (bl - snd p) / (28346 # 1000))%Q
                (row_deduped points)
     /\ (points <> [] -> dedup points = Ok (row_deduped points)))
  /\ (forall ri, rows !! ri = Some [] -> v ri = [])
  /\ (forall ri p0 rest bl,
        rows !! ri = Some (p0 :: rest) -> baselines !! Z.to_nat ri = Some bl ->
        spaced p0 rest -> length (v ri) = length (p0 :: rest))
  /\ length signal = (n0 + n1 + n2 + n3)%nat
  /\ (forall i, (i < n0)%nat -> signal !! i = v 0%Z !! i)
  /\ (forall i, (n0 <= i < n0 + n1)%nat -> signal !! i = v 1%Z !! (i - n0)%nat)
  /\ (forall i, (n0 + n1 <= i < n0 + n1 + n2)%nat ->
        signal !! i = v 2%Z !! (i - n0 - n1)%nat)
  /\ (forall i, (n0 + n1 + n2 <= i < n0 + n1 + n2 + n3)%nat ->
        signal !! i = v 3%Z !! (i - n0 - n1 - n2)%nat)
  /\ (signal <> [] ->
      exists tr, main doc = (Ok tt, tr)
        /\ In (writeSamples [signal]) tr
        /\ In (print (OutTotalSamples (length signal))) tr
        /\ In (print (OutDuration (inject_Z (Z.of_nat (length signal))
                                   / inject_Z 300))) tr)
  /\ (n0 = 3%nat -> n1 = 0%nat -> n2 = 2%nat -> n3 = 4%nat ->
      length signal = 9%nat
      /\ exists tr d, main doc = (Ok tt, tr)
           /\ In (writeSamples [signal]) tr
           /\ In (print (OutTotalSamples 9)) tr
           /\ In (print (OutDuration d)) tr /\ (d == 9 # 300)%Q).
Proof.
  intros Hpg Hbl Hrows v signal n0 n1 n2 n3.
  pose proof (extract_baselines_some pg baselines Hbl) as Hlen.
  pose proof (signal_four_rows rows baselines Hlen) as Hsig.
  assert (Hlength : length signal = (n0 + n1 + n2 + n3)%nat).
  { unfold signal. rewrite !length_app. unfold n0, n1, n2, n3. lia. }
  assert (Hrun : signal <> [] ->
      exists tr, main doc = (Ok tt, tr)
        /\ In (writeSamples [signal]) tr
        /\ In (print (OutTotalSamples (length signal))) tr
        /\ In (print (OutDuration (inject_Z (Z.of_nat (length signal))
                                   / inject_Z 300))) tr).
  { intros Hne. unfold signal, v in Hne. rewrite <- Hsig in Hne.
    destruct (main_success doc pg baselines rows Hpg Hbl Hrows Hne)
      as (lo & hi & tr & Hmain & _ & _ & _ & _ & _ & _ & Hw & Ht & Hd).
    rewrite Hsig in Hw, Ht, Hd. exists tr.
    split; [exact Hmain|]. split; [exact Hw|]. split; [exact Ht|exact Hd]. }
  split; [|split; [|split; [|split; [exact Hlength|]]]].
  - intros ri points bl Hrow Hb. split.
    + unfold v, row_signal. now rewrite Hrow, Hb.
    + intros Hne. destruct points as [|p0 rest]; [congruence|].
      apply dedup_cons.
  - intros ri. apply row_signal_empty_row.
  - intros ri p0 rest bl Hrow Hb Hsp. unfold v, row_signal.
    rewrite Hrow, Hb. cbn [row_deduped].
    now rewrite dedup_from_fixed, length_map.
  - split; [|split; [|split; [|split; [|split; [exact Hrun|]]]]].
    + intros i Hi. unfold signal. now rewrite lookup_app_l.
    + intros i Hi. unfold signal.
      rewrite lookup_app_r by (fold n0; lia). fold n0.
      rewrite lookup_app_l by (fold n1; lia). reflexivity.
    + intros i Hi. unfold signal.
      rewrite lookup_app_r by (fold n0; lia). fold n0.
      rewrite lookup_app_r by (fold n1; lia). fold n1.
      rewrite lookup_app_l by (fold n2; lia). reflexivity.
    + intros i Hi. unfold signal.
      rewrite lookup_app_r by (fold n0; lia). fold n0.
      rewrite lookup_app_r by (fold n1; lia). fold n1.
      rewrite lookup_app_r by (fold n2; lia). fold n2. reflexivity.
    + intros H0 H1 H2 H3.
      assert (H9 : length signal = 9%nat) by lia.
      split; [exact H9|].
      destruct Hrun as (tr & Hmain & Hw & Ht & Hd).
      { destruct signal; [discriminate H9|discriminate]. }
      rewrite H9 in Ht, Hd.
      exists tr, (inject_Z (Z.of_nat 9) / inject_Z 300)%Q.
      repeat split; try assumption.
Qed.

Lemma signal_concatenates_rows_witness :
  exists tr d,
    main scenario_doc = (Ok tt, tr)
    /\ In (print (OutTotalSamples 9)) tr
    /\ In (print (OutDuration d)) tr /\ (d == 9 # 300)%Q.
Proof.
  pose (rows := match extract_ecg_waveform_rows scenario_page sample_baselines
                with Ok r => r | Raise _ => empty_rows 0 end).
  destruct (signal_concatenates_rows scenario_doc scenario_page
              sample_baselines rows)
    as (_ & _ & _ & _ & _ & _ & _ & _ & _ & Hscenario).
  - reflexivity.
  - vm_compute. reflexivity.
  - vm_compute. reflexivity.
  - destruct Hscenario as (_ & tr & d & Hmain & _ & Ht & Hd & Heq);
      try (vm_compute; reflexivity).
    exists tr, d. auto.
Defined.

(** ** The physical range *)

(** C8. When the concatenated voltage sequence is not empty, the run
    returns, and the physical minimum set on the sink is the least value
    of the sequence minus 0.1 and the physical maximum its greatest value
    plus 0.1; no other value is set, and the sequence is what is
    written. *)
Theorem physical_range_widened (doc : list page) (pg : page)
    (baselines : list Q) (rows : gmap Z (list (Q * Q))) :
  doc !! 1%nat = Some pg ->
  extract_baselines pg = Ok (Some baselines) ->
  extract_ecg_waveform_rows pg baselines = Ok rows ->
  let signal :=
    flat_map (row_signal rows baselines) (py_range (length baselines)) in
  signal <> [] ->
  exists lo hi tr,
    main doc = (Ok tt, tr)
    /\ is_minimum lo signal /\ is_maximum hi signal
    /\ In (setPhysicalMinimum 0 (lo - (1 # 10))%Q) tr
    /\ In (setPhysicalMaximum 0 (hi + (1 # 10))%Q) tr
    /\ (forall v, In (setPhysicalMinimum 0 v) tr -> v = (lo - (1 # 10))%Q)
    /\ (forall v, In (setPhysicalMaximum 0 v) tr -> v = (hi + (1 # 10))%Q)
    /\ In (writeSamples [signal]) tr.
Proof.
  intros Hpg Hbl Hrows signal Hsig.
  destruct (main_success doc pg baselines rows Hpg Hbl Hrows Hsig)
    as (lo & hi & tr & Hmain & Hmin & Hmax & H1 & H2 & H3 & H4 & H5 & _).
  exists lo, hi, tr. auto 10.
Qed.

Lemma physical_range_widened_witness :
  exists lo hi tr,
    main scenario_doc = (Ok tt, tr)
    /\ In (setPhysicalMinimum 0 (lo - (1 # 10))%Q) tr
    /\ In (setPhysicalMaximum 0 (hi + (1 # 10))%Q) tr.
Proof.
  pose (rows := match extract_ecg_waveform_rows scenario_page sample_baselines
                with Ok r => r | Raise _ => empty_rows 0 end).
  destruct (physical_range_widened scenario_doc scenario_page
              sample_baselines rows)
    as (lo & hi & tr & Hmain & _ & _ & Hlo & Hhi & _).
  - reflexivity.
  - vm_compute. reflexivity.
  - vm_compute. reflexivity.
  - vm_compute. discriminate.
  - exists lo, hi, tr. auto.
Defined.

(** ** The empty signal *)

(** C9. When the baselines are found and every row is left without
    points, the concatenated signal is empty, taking its minimum raises
    [ValueError], and [main] raises it before any call on the sink: no
    output file is written.  As soon as one row has a point, [main]
    returns and closes the file. *)
Theorem all_rows_empty_raises (doc : list page) (pg : page)
    (baselines : list Q) (rows : gmap Z (list (Q * Q))) :
  doc !! 1%nat = Some pg ->
  extract_baselines pg = Ok (Some baselines) ->
  extract_ecg_waveform_rows pg baselines = Ok rows ->
  ((forall ri points, rows !! ri = Some points -> points = []) ->
     flat_map (row_signal rows baselines) (py_range (length baselines)) = []
     /\ np_min [] = Raise ValueError
     /\ exists tr, main doc = (Raise ValueError, tr) /\ sink_calls tr = [])
  /\ ((exists ri points, rows !! ri = Some points /\ points <> []) ->
      exists tr, main doc = (Ok tt, tr) /\ In close tr).
Proof.
  intros Hpg Hbl Hrows.
  assert (Hne : baselines <> []).
  { apply extract_baselines_some in Hbl. now destruct baselines. }
  destruct (main_run doc pg baselines Hpg Hbl Hne)
    as (rows' & lines & Hrows' & Hprints & Hnil & Hok & _).
  assert (rows' = rows) as -> by congruence.
  destruct (extract_rows_lookup pg baselines) as (rows' & Hrows'' & Hl).
  assert (rows' = rows) as -> by congruence.
  split.
  - intros Hempty.
    assert (Hsig : flat_map (row_signal rows baselines)
                            (py_range (length baselines)) = []).
    { apply flat_map_nil_forall. apply List.Forall_forall. intros ri Hri.
      apply in_py_range in Hri. apply row_signal_empty_row.
      destruct (rows !! ri) as [points|] eqn:Hrow.
      - now rewrite (Hempty ri points Hrow).
      - rewrite Hl in Hrow. case_decide; [discriminate|lia]. }
    split; [exact Hsig|]. split; [reflexivity|].
    exists lines. split; [now apply Hnil|]. now apply sink_calls_prints.
  - intros (ri & points & Hrow & Hpoints).
    assert (Hri : (0 <= ri < Z.of_nat (length baselines))%Z).
    { rewrite Hl in Hrow. case_decide; [assumption|discriminate]. }
    pose proof (row_signal_nonempty rows baselines ri points Hri Hrow Hpoints)
      as Hrs.
    assert (Hsig : flat_map (row_signal rows baselines)
                            (py_range (length baselines)) <> []).
    { intros Hnone. apply Hrs.
      rewrite flat_map_nil_forall in Hnone.
      rewrite List.Forall_forall in Hnone. apply Hnone.
      now apply in_py_range. }
    destruct (py_min_spec _ Hsig) as (lo & Hlo & _).
    destruct (py_max_spec _ Hsig) as (hi & Hhi & _).
    eexists. split; [exact (Hok lo hi Hlo Hhi)|].
    apply in_or_app. right. right.
    now apply (write_edf_calls _ lo hi Hlo Hhi).
Qed.

Lemma all_rows_empty_raises_witness :
  exists tr, main grid_only_doc = (Raise ValueError, tr) /\ sink_calls tr = [].
Proof.
  pose (rows := match extract_ecg_waveform_rows grid_page sample_baselines
                with Ok r => r | Raise _ => empty_rows 0 end).
  destruct (all_rows_empty_raises grid_only_doc grid_page sample_baselines rows)
    as [Hempty _].
  - reflexivity.
  - vm_compute. reflexivity.
  - vm_compute. reflexivity.
  - destruct Hempty as (_ & _ & Hmain).
    + intros ri points Hrow. vm_compute in rows.
      destruct (decide (ri = 0%Z)) as [->|H0];
        [vm_compute in Hrow; congruence|].
      destruct (decide (ri = 1%Z)) as [->|H1];
        [vm_compute in Hrow; congruence|].
      destruct (decide (ri = 2%Z)) as [->|H2];
        [vm_compute in Hrow; congruence|].
      destruct (decide (ri = 3%Z)) as [->|H3];
        [vm_compute in Hrow; congruence|].
      exfalso. change rows with (empty_rows 4) in Hrow.
      rewrite empty_rows_lookup in Hrow. case_decide; [lia|discriminate].
    + exact Hmain.
Defined.

(** ** Paths without a stroke width *)

Section AbsentWidth.
Local Open Scope Q_scope.

Lemma absent_width_cases (p : path) :
  width_absent p -> width_of p = Some 0 \/ width_of p = None.
Proof.
  unfold width_absent, width_of. intros [-> | ->]; [now left|now right].
Qed.

Lemma absent_not_baseline (p : path) :
  width_absent p -> baseline_ruleb p = false.
Proof.
  intros H. unfold baseline_ruleb.
  destruct (absent_width_cases p H) as [-> | ->];
    destruct (color_eq (color_of p) BLACK); reflexivity.
Qed.

Lemma absent_not_waveform (p : path) :
  width_absent p -> waveform_ruleb p = false.
Proof.
  intros H. unfold waveform_ruleb.
  destruct (absent_width_cases p H) as [-> | ->];
    destruct (color_eq (color_of p) BLACK); reflexivity.
Qed.

Lemma find_skip {A} (f : A -> bool) (pre post : list A) (a : A) :
  f a = false -> List.find f (pre ++ a :: post) = List.find f (pre ++ post).
Proof.
  intros Ha. induction pre as [|b pre IH]; simpl.
  - now rewrite Ha.
  - now rewrite IH.
Qed.

Lemma waveform_loop_app (baselines : list Q) (l1 l2 : list path)
    (rows : gmap Z (list (Q * Q))) :
  waveform_loop baselines (l1 ++ l2) rows
  = rbind (waveform_loop baselines l1 rows) (waveform_loop baselines l2).
Proof.
  revert rows. induction l1 as [|p l1 IH]; intros rows; [reflexivity|].
  cbn [app waveform_loop].
  destruct (waveform_step baselines rows p); [apply IH|reflexivity].
Qed.

Lemma skipped_step (baselines : list Q) (rows : gmap Z (list (Q * Q)))
    (p : path) :
  waveform_ruleb p = false -> waveform_step baselines rows p = Ok rows.
Proof.
  intros H. unfold waveform_step.
  fold (items_of p) (color_of p) (width_of p).
  now rewrite waveform_skip_total, H.
Qed.

End AbsentWidth.

(** C10. A path whose stroke width is absent, by a missing key or by the
    value [None], fails both tests without raising: it adds no baseline
    value and no waveform point, so that the locator and the extractor
    return what they return on the page without it.  When the width is
    [None] the outcome of both tests is the same whatever the chained
    comparison would yield, an exception included: it is not consulted.
    When the key is missing the comparison is made on the default 0. *)
Theorem absent_width_ignored (p : path) :
  width_absent p ->
  baseline_test (color_of p) (width_of p) (items_of p) = Ok false
  /\ waveform_skip_test (color_of p) (width_of p) (items_of p) = Ok true
  /\ (forall pre post,
        extract_baselines (mkPage (pre ++ p :: post))
        = extract_baselines (mkPage (pre ++ post)))
  /\ (forall baselines rows, waveform_step baselines rows p = Ok rows)
  /\ (forall pre post baselines,
        extract_ecg_waveform_rows (mkPage (pre ++ p :: post)) baselines
        = extract_ecg_waveform_rows (mkPage (pre ++ post)) baselines)
  /\ (path_width p = Some None ->
      width_of p = None
      /\ chain_lt (35 # 100) (width_of p) (45 # 100) = Raise TypeError
      /\ forall in_range : res bool,
           baseline_guard (color_of p) (width_of p) in_range (items_of p)
           = Ok false
           /\ waveform_skip_guard (color_of p) (width_of p) in_range
                (items_of p) = Ok true)
  /\ (path_width p = None ->
      width_of p = Some 0%Q
      /\ chain_lt (35 # 100) (width_of p) (45 # 100) = Ok false).
Proof.
  intros Habs.
  pose proof (absent_not_baseline p Habs) as Hb.
  pose proof (absent_not_waveform p Habs) as Hw.
  split; [now rewrite baseline_test_total, Hb|].
  split; [now rewrite waveform_skip_total, Hw|].
  split; [|split; [|split; [|split]]].
  - intros pre post. unfold extract_baselines. cbn [get_drawings].
    rewrite !baselines_loop_find. f_equal. f_equal. apply find_skip.
    unfold locatingb. now rewrite Hb.
  - intros baselines rows. now apply skipped_step.
  - intros pre post baselines. unfold extract_ecg_waveform_rows.
    cbn [get_drawings]. rewrite !waveform_loop_app.
    destruct (waveform_loop baselines pre _) as [rows|e]; [|reflexivity].
    cbn [rbind waveform_loop]. now rewrite skipped_step.
  - intros Hnone. unfold width_of. rewrite Hnone. cbn [dict_get].
    split; [reflexivity|]. split; [reflexivity|]. intros in_range.
    unfold baseline_guard, waveform_skip_guard.
    destruct (color_eq (color_of p) BLACK); split; reflexivity.
  - intros Hmiss. unfold width_of. rewrite Hmiss. cbn [dict_get].
    split; reflexivity.
Qed.

Lemma absent_width_ignored_witness :
  width_absent none_width_path
  /\ baseline_test (color_of none_width_path) (width_of none_width_path)
       (items_of none_width_path) = Ok false
  /\ waveform_skip_test (color_of none_width_path) (width_of none_width_path)
       (items_of none_width_path) = Ok true.
Proof.
  assert (H : width_absent none_width_path) by (right; reflexivity).
  split; [exact H|].
  destruct (absent_width_ignored none_width_path H) as (Hb & Hw & _).
  split; [exact Hb|exact Hw].
Defined.

(* ================================================================== *)
(** * Further properties of the code *)

(** ** The locator *)

Section LocatorFurther.
Local Open Scope Q_scope.

Lemma find_app_first {A} (f : A -> bool) (l1 l2 : list A) :
  List.find f (l1 ++ l2)
  = match List.find f l1 with
    | Some a => Some a
    | None => List.find f l2
    end.
Proof.
  induction l1 as [|a l1 IH]; [reflexivity|].
  cbn [app List.find]. now destruct (f a).
Qed.

Lemma surviving_visible (p : path) (yv : Q) :
  In yv (surviving_ys p) ->
  yv < 760 /\ exists it, In it (items_of p) /\ wide_horizontal it
                          /\ yv = segment_y it.
Proof.
  unfold surviving_ys. intros Hin. apply in_map_iff in Hin.
  destruct Hin as (it & <- & Hit). apply List.filter_In in Hit.
  destruct Hit as [Hit Hb]. apply baseline_segmentb_iff in Hb.
  destruct Hb as (p1 & p2 & -> & Hy & Hx & Hv).
  split; [exact Hv|]. exists (Line p1 p2). split; [exact Hit|].
  split; [|reflexivity]. exists p1, p2. auto.
Qed.

End LocatorFurther.

(** X1. On every page the locator returns without raising, either
    nothing or exactly four values; each value then is below the cutoff
    760 and is the y of the first endpoint of a horizontal line wider
    than 500 of one path of the page that is pure black, thin and has at
    least four commands. *)
Theorem extract_baselines_four_visible (pg : page) :
  extract_baselines pg = Ok None
  \/ exists baselines p,
       extract_baselines pg = Ok (Some baselines)
       /\ length baselines = 4%nat
       /\ In p (get_drawings pg) /\ baseline_rule p
       /\ List.Forall
            (fun yv => (yv < 760)%Q
                       /\ exists it, In it (items_of p) /\ wide_horizontal it
                                     /\ yv = segment_y it) baselines.
Proof.
  unfold extract_baselines. rewrite baselines_loop_find.
  destruct (List.find locatingb (get_drawings pg)) as [p|] eqn:Hfind;
    [right|now left].
  destruct (find_split _ _ _ Hfind) as (pre & post & Hsplit & Hp & _).
  apply locatingb_iff in Hp. destruct Hp as [Hrule Hlen].
  exists (firstn 4 (surviving_ys p)), p.
  split; [reflexivity|]. split; [rewrite length_firstn; lia|].
  split; [rewrite Hsplit; apply in_or_app; right; now left|].
  split; [exact Hrule|].
  apply List.Forall_forall. intros yv Hin. apply In_firstn in Hin.
  now apply surviving_visible.
Qed.

(** X2. Over a page that is the concatenation of two lists of paths,
    the locator answers from the first list when it finds baselines
    there, and otherwise answers as on the second list alone.  So a
    path under the baseline rule that holds fewer than four qualifying
    segments does not stop the search: the paths after it are still
    tried. *)
Theorem extract_baselines_app (l1 l2 : list path) :
  extract_baselines (mkPage (l1 ++ l2))
  = match extract_baselines (mkPage l1) with
    | Ok None => extract_baselines (mkPage l2)
    | found => found
    end
  /\ (forall p, In p l1 -> baseline_rule p ->
        extract_baselines (mkPage l1) = Ok None ->
        (length (surviving_ys p) < 4)%nat
        /\ extract_baselines (mkPage (l1 ++ l2))
           = extract_baselines (mkPage l2)).
Proof.
  unfold extract_baselines. cbn [get_drawings].
  rewrite !baselines_loop_find, find_app_first.
  split.
  - destruct (List.find locatingb l1); reflexivity.
  - intros p Hin Hrule Hnone.
    destruct (List.find locatingb l1) eqn:Hfind; [discriminate|].
    split; [|reflexivity].
    apply find_none_forall in Hfind. rewrite List.Forall_forall in Hfind.
    specialize (Hfind p Hin). unfold locatingb in Hfind.
    apply baseline_ruleb_iff in Hrule. rewrite Hrule in Hfind.
    cbn [andb] in Hfind. now apply Nat.leb_gt in Hfind.
Qed.

Lemma extract_baselines_app_witness :
  In short_grid_path [red_grid_path; short_grid_path]
  /\ extract_baselines
       (mkPage ([red_grid_path; short_grid_path] ++ [grid_path]))
     = extract_baselines (mkPage [grid_path]).
Proof.
  assert (Hin : In short_grid_path [red_grid_path; short_grid_path])
    by (right; now left).
  split; [exact Hin|].
  destruct (extract_baselines_app [red_grid_path; short_grid_path]
              [grid_path]) as [_ Hskip].
  apply (Hskip short_grid_path Hin).
  - apply baseline_ruleb_iff. vm_compute. reflexivity.
  - vm_compute. reflexivity.
Defined.

(** ** The extractor *)

Section ExtractorFurther.
Local Open Scope Q_scope.

Lemma row_of_sorted_flat (paths : list path) (baselines : list Q) (ri : Z) :
  (0 <= ri < Z.of_nat (length baselines))%Z ->
  row_of paths baselines ri
  = sort_by_x (flat_map (row_points baselines ri) paths).
Proof.
  intros Hri. unfold row_of.
  destruct (extract_rows_lookup (mkPage paths) baselines)
    as (rows & -> & Hl).
  rewrite Hl. cbn [get_drawings]. case_decide; [reflexivity|lia].
Qed.

Lemma row_of_outside (paths : list path) (baselines : list Q) (ri : Z) :
  ~ (0 <= ri < Z.of_nat (length baselines))%Z ->
  row_of paths baselines ri = [].
Proof.
  intros Hri. unfold row_of.
  destruct (extract_rows_lookup (mkPage paths) baselines)
    as (rows & -> & Hl).
  rewrite Hl. case_decide; [contradiction|reflexivity].
Qed.

Lemma points_step_endpoints (points : list (Q * Q)) (it : item) (q : Q * Q) :
  In q (points_step points it) ->
  In q points \/ In q (endpoints [it]).
Proof.
  destruct it; cbn [points_step endpoints flat_map]; auto.
  rewrite app_nil_r. intros Hin. apply in_app_or in Hin.
  destruct Hin as [Hin|[<-|[]]].
  - destruct (match last points with Some _ => _ | None => true end).
    + apply in_app_or in Hin. destruct Hin as [Hin|[<-|[]]]; auto.
      right. now left.
    + auto.
  - right. right. now left.
Qed.

Lemma endpoints_app (l1 l2 : list item) :
  endpoints (l1 ++ l2) = endpoints l1 ++ endpoints l2.
Proof. unfold endpoints. now rewrite flat_map_app. Qed.

Lemma extract_points_endpoints (items : list item) (q : Q * Q) :
  In q (extract_points items) -> In q (endpoints items).
Proof.
  induction items as [|it items IH] using rev_ind; [contradiction|].
  rewrite extract_points_snoc, endpoints_app. intros Hin.
  apply in_or_app. apply points_step_endpoints in Hin.
  destruct Hin; auto.
Qed.

Lemma row_points_rule (baselines : list Q) (ri : Z) (p : path) (q : Q * Q) :
  In q (row_points baselines ri p) ->
  waveform_rule p /\ In q (extract_points (items_of p)).
Proof.
  unfold row_points. destruct (nearest_row _ _) as [m z].
  destruct (waveform_ruleb p) eqn:Hrule; [|contradiction].
  destruct (_ && _ && _ && _); [|contradiction].
  intros Hin. split; [now apply waveform_ruleb_iff|exact Hin].
Qed.

End ExtractorFurther.

(** X3. For every page and every list of baselines, the empty list
    included, the extractor returns without raising, and the dictionary
    it returns has exactly the keys 0 .. len(baselines)-1: reading
    [rows[ri]] for [ri] in [range(len(baselines))] never raises, and with
    no baseline the dictionary is empty. *)
Theorem extract_rows_keys (pg : page) (baselines : list Q) :
  exists rows,
    extract_ecg_waveform_rows pg baselines = Ok rows
    /\ rows_keyed (length baselines) rows
    /\ (forall ri, In ri (py_range (length baselines)) ->
          exists points, dict_item rows ri = Ok points)
    /\ (forall ri, ~ In ri (py_range (length baselines)) ->
          dict_item rows ri = Raise KeyError)
    /\ (baselines = [] -> rows = ∅).
Proof.
  destruct (extract_rows_lookup pg baselines) as (rows & Hrows & Hl).
  exists rows. split; [exact Hrows|].
  assert (Hkeys : rows_keyed (length baselines) rows).
  { intros ri. rewrite Hl. case_decide; split; intros H'; eauto; try lia.
    destruct H'; discriminate. }
  split; [exact Hkeys|]. split; [|split].
  - intros ri Hri. apply in_py_range in Hri. apply Hkeys in Hri.
    destruct Hri as [points Hp]. exists points. unfold dict_item.
    now rewrite Hp.
  - intros ri Hri. rewrite in_py_range in Hri. unfold dict_item.
    rewrite Hl. case_decide; [contradiction|reflexivity].
  - intros ->. apply map_eq. intros ri. rewrite Hl, lookup_empty.
    case_decide; [simpl in *; lia|reflexivity].
Qed.

(** X4. Each row of a page made of two lists of paths holds the points
    of that row for the first list together with those for the second;
    and listing the paths of a page in another order changes a row at
    most by the order of its points. *)
Theorem extract_rows_merge (l1 l2 : list path) (baselines : list Q) (ri : Z) :
  Permutation (row_of (l1 ++ l2) baselines ri)
              (row_of l1 baselines ri ++ row_of l2 baselines ri)
  /\ (forall l, Permutation l1 l ->
        Permutation (row_of l1 baselines ri) (row_of l baselines ri))
  /\ Sorted x_le (row_of (l1 ++ l2) baselines ri).
Proof.
  destruct (decide (0 <= ri < Z.of_nat (length baselines))%Z) as [Hri|Hri].
  - rewrite !row_of_sorted_flat by exact Hri. split; [|split].
    + rewrite !sort_by_x_perm, flat_map_app. reflexivity.
    + intros l Hl. rewrite !row_of_sorted_flat by exact Hri.
      rewrite !sort_by_x_perm. now apply Permutation_flat_map.
    + apply sort_by_x_sorted.
  - rewrite !row_of_outside by exact Hri. split; [reflexivity|].
    split; [|constructor].
    intros l _. now rewrite row_of_outside.
Qed.

Lemma extract_rows_merge_witness :
  Permutation [black_trace; far_trace] [far_trace; black_trace]
  /\ Permutation (row_of [black_trace; far_trace] sample_baselines 0)
                 (row_of [far_trace; black_trace] sample_baselines 0).
Proof.
  assert (H : Permutation [black_trace; far_trace] [far_trace; black_trace])
    by apply perm_swap.
  split; [exact H|].
  destruct (extract_rows_merge [black_trace; far_trace] [] sample_baselines 0)
    as (_ & Hperm & _).
  exact (Hperm _ H).
Defined.

(** Where a point that some path adds to a row comes from. *)
Lemma row_points_provenance (paths : list path) (baselines : list Q)
    (ri : Z) (q : Q * Q) :
  In q (flat_map (row_points baselines ri) paths) ->
  exists p, In p paths /\ waveform_rule p /\ In q (endpoints (items_of p)).
Proof.
  intros Hin. apply in_flat_map in Hin. destruct Hin as (p & Hp & Hq).
  apply row_points_rule in Hq. destruct Hq as [Hrule Hq].
  exists p. split; [exact Hp|]. split; [exact Hrule|].
  now apply extract_points_endpoints.
Qed.

(** X5. The extractor invents no point: every point of every row it
    returns is an endpoint of a line command of a path of the page that
    is pure black, thin and has at least 40 commands. *)
Theorem extract_rows_provenance (pg : page) (baselines : list Q)
    (rows : gmap Z (list (Q * Q))) (ri : Z) (points : list (Q * Q))
    (q : Q * Q) :
  extract_ecg_waveform_rows pg baselines = Ok rows ->
  rows !! ri = Some points ->
  In q points ->
  exists p, In p (get_drawings pg) /\ waveform_rule p
            /\ In q (endpoints (items_of p)).
Proof.
  intros Hrows Hrow Hin.
  destruct (extract_rows_lookup pg baselines) as (rows' & Hrows' & Hl).
  assert (rows' = rows) as -> by congruence.
  rewrite Hl in Hrow. case_decide; [|discriminate].
  injection Hrow as <-.
  apply (Permutation_in _ (sort_by_x_perm _)) in Hin.
  now apply row_points_provenance in Hin.
Qed.

Lemma extract_rows_provenance_witness :
  exists p, In p [red_trace; black_trace] /\ waveform_rule p
            /\ In (inject_Z 20, inject_Z 105) (endpoints (items_of p)).
Proof.
  apply (extract_rows_provenance (mkPage [red_trace; black_trace])
           sample_baselines
           (<[0%Z := sort_by_x (extract_points (items_of black_trace))]>
              (empty_rows 4))
           0%Z (sort_by_x (extract_points (items_of black_trace)))).
  - vm_compute. reflexivity.
  - vm_compute. reflexivity.
  - vm_compute. left. reflexivity.
Defined.

(** ** Point extraction *)

Section PointsFurther.
Local Open Scope Q_scope.

Lemma count_lines_snoc (items : list item) (it : item) :
  count_lines (items ++ [it])
  = (count_lines items + if is_line it then 1 else 0)%nat.
Proof.
  unfold count_lines. rewrite List.filter_app, length_app.
  cbn [List.filter]. now destruct (is_line it).
Qed.

Lemma points_step_line_length (points : list (Q * Q)) (p1 p2 : Point) :
  (points = [] /\ length (points_step points (Line p1 p2)) = 2%nat)
  \/ (points <> []
      /\ (length points + 1 <= length (points_step points (Line p1 p2))
          <= length points + 2)%nat).
Proof.
  cbn [points_step]. destruct points as [|q points]; [left; auto|right].
  split; [discriminate|].
  destruct (match last (q :: points) with Some _ => _ | None => true end);
    rewrite !length_app; cbn [length]; lia.
Qed.

Lemma extract_points_bounds (items : list item) :
  (count_lines items = 0%nat /\ extract_points items = [])
  \/ ((1 <= count_lines items)%nat
      /\ (count_lines items + 1 <= length (extract_points items)
          <= 2 * count_lines items)%nat).
Proof.
  induction items as [|it items IH] using rev_ind; [left; auto|].
  rewrite extract_points_snoc, count_lines_snoc.
  destruct it; cbn [is_line];
    try (cbn [points_step]; rewrite Nat.add_0_r; exact IH).
  right. split; [lia|].
  destruct (points_step_line_length (extract_points items) p1 p2)
    as [[Hnil Hlen]|[Hne Hlen]].
  - destruct IH as [[Hc _]|[_ Hb]]; [lia|].
    rewrite Hnil in Hb. cbn [length] in Hb. lia.
  - destruct IH as [[_ Hnil]|[_ Hb]]; [contradiction|lia].
Qed.

Lemma Qabs_self_small (a : Q) : Qltb (1 # 1000) (Qabs (a - a)) = false.
Proof.
  apply Qltb_ge. apply Qabs_Qle_condition. split; lra.
Qed.

Lemma polyline_fold (vs : list Point) (a : Point) (acc : list (Q * Q)) :
  fold_left points_step (polyline (a :: vs)) (acc ++ [coords a])
  = acc ++ map coords (a :: vs).
Proof.
  revert a acc. induction vs as [|b vs IH]; intros a acc; [reflexivity|].
  change (polyline (a :: b :: vs)) with (Line a b :: polyline (b :: vs)).
  cbn [fold_left points_step]. rewrite last_snoc.
  cbn [coords fst snd]. rewrite !Qabs_self_small. cbn [orb].
  fold (coords b). rewrite IH. cbn [map]. now rewrite <- app_assoc.
Qed.

End PointsFurther.

(** X6. The number of points taken from a path is tied to its number of
    line commands: none when there is no line command, and otherwise at
    least one more than the line commands and at most twice as many.
    Commands of other kinds add nothing. *)
Theorem extract_points_count (items : list item) :
  (count_lines items = 0%nat <-> extract_points items = [])
  /\ (length (extract_points items) <= 2 * count_lines items)%nat
  /\ ((1 <= count_lines items)%nat ->
      (count_lines items + 1 <= length (extract_points items))%nat)
  /\ extract_points (List.filter is_line items) = extract_points items.
Proof.
  pose proof (extract_points_bounds items) as Hb.
  split; [|split; [|split]].
  - destruct Hb as [[Hc Hnil]|[Hc Hlen]]; split; intros H; auto.
    + lia.
    + rewrite H in Hlen. cbn [length] in Hlen. lia.
  - destruct Hb as [[Hc ->]|[_ Hlen]]; cbn [length]; lia.
  - intros H1. destruct Hb as [[Hc _]|[_ Hlen]]; lia.
  - clear Hb. induction items as [|it items IH] using rev_ind; [reflexivity|].
    rewrite List.filter_app, extract_points_snoc. cbn [List.filter].
    destruct it; cbn [is_line points_step]; rewrite ?app_nil_r; try exact IH.
    rewrite extract_points_snoc, IH. reflexivity.
Qed.

Lemma extract_points_count_witness :
  (1 <= count_lines (items_of row0_trace))%nat
  /\ (count_lines (items_of row0_trace) + 1
      <= length (extract_points (items_of row0_trace)))%nat.
Proof.
  assert (H : (1 <= count_lines (items_of row0_trace))%nat)
    by (vm_compute; lia).
  split; [exact H|].
  apply (extract_points_count (items_of row0_trace)). exact H.
Defined.

(** X7. A polyline whose line commands share their endpoints (each
    starts where the one before ends) gives back its vertices, each
    once and in order. *)
Theorem extract_points_polyline (vs : list Point) :
  (2 <= length vs)%nat ->
  extract_points (polyline vs) = map coords vs.
Proof.
  destruct vs as [|a [|b vs]]; cbn [length]; try lia. intros _.
  change (polyline (a :: b :: vs)) with (Line a b :: polyline (b :: vs)).
  unfold extract_points. cbn [fold_left points_step last].
  cbn [app]. exact (polyline_fold vs b [coords a]).
Qed.

Lemma extract_points_polyline_witness :
  (2 <= length [pt 30 95; pt 31 105; pt 32 98])%nat
  /\ extract_points (polyline [pt 30 95; pt 31 105; pt 32 98])
     = map coords [pt 30 95; pt 31 105; pt 32 98].
Proof.
  split; [cbn [length]; lia|].
  apply extract_points_polyline. cbn [length]. lia.
Defined.

(** ** Voltage conversion with any calibration *)

Section VoltageFurther.
Local Open Scope Q_scope.

Lemma points_to_voltage_nonzero (points : list (Q * Q)) (b cal : Q) :
  Qeq_bool cal 0 = false ->
  points_to_voltage points b cal
  = Ok (map (fun p => (b - snd p) / cal) points).
Proof.
  intros Hcal. induction points as [|[x y] points IH]; [reflexivity|].
  cbn [points_to_voltage map]. unfold py_div at 1. rewrite Hcal.
  cbn [rbind]. rewrite IH. reflexivity.
Qed.

End VoltageFurther.

(** X8. [points_to_voltage] raises exactly when the calibration is zero
    and there is at least one point, and then it raises
    [ZeroDivisionError]; on no point it returns the empty list whatever
    the calibration.  When it returns, voltage [i] is
    (baseline_y - y) / cal for point [i]: one voltage per point, in the
    order of the points, and the x of a point plays no part. *)
Theorem points_to_voltage_cases (points : list (Q * Q)) (baseline_y cal : Q) :
  (points_to_voltage points baseline_y cal = Raise ZeroDivisionError
   <-> (cal == 0)%Q /\ points <> [])
  /\ (forall e, points_to_voltage points baseline_y cal = Raise e ->
        e = ZeroDivisionError)
  /\ (forall vs, points_to_voltage points baseline_y cal = Ok vs ->
        length vs = length points
        /\ forall i p, points !! i = Some p ->
             vs !! i = Some ((baseline_y - snd p) / cal)%Q)
  /\ points_to_voltage [] baseline_y cal = Ok [].
Proof.
  destruct (Qeq_bool cal 0) eqn:Hcal.
  - assert (Hz : (cal == 0)%Q) by now apply Qeq_bool_true.
    destruct points as [|[x y] points].
    + split; [|split; [|split]]; try reflexivity.
      * split; [discriminate|]. intros [_ H]. congruence.
      * discriminate.
      * intros vs [= <-]. split; [reflexivity|]. intros i p Hi.
        destruct i; discriminate.
    + assert (Hr : points_to_voltage ((x, y) :: points) baseline_y cal
                   = Raise ZeroDivisionError).
      { cbn [points_to_voltage]. unfold py_div at 1. now rewrite Hcal. }
      rewrite Hr. split; [|split; [|split]]; try reflexivity.
      * split; [intros _; split; [exact Hz|discriminate]|reflexivity].
      * now intros e [= <-].
      * discriminate.
  - rewrite (points_to_voltage_nonzero points _ _ Hcal).
    split; [|split; [|split]]; try reflexivity.
    + split; [discriminate|]. intros [Hz _].
      apply Qeq_bool_true in Hz. congruence.
    + discriminate.
    + intros vs [= <-]. split; [apply length_map|].
      intros i p Hi. now rewrite list_lookup_fmap, Hi.
Qed.

Lemma points_to_voltage_cases_witness :
  points_to_voltage [(1, 2)%Q] 5 0 = Raise ZeroDivisionError.
Proof.
  apply (points_to_voltage_cases [(1, 2)%Q] 5 0).
  split; [reflexivity|discriminate].
Defined.

(** ** Deduplication of a row *)

Section DedupFurther.
Local Open Scope Q_scope.

Lemma dedup_from_sublist (lp : Q * Q) (rest : list (Q * Q)) :
  sublist (dedup_from lp rest) rest.
Proof.
  revert lp. induction rest as [|p rest IH]; intros lp; cbn [dedup_from].
  - constructor.
  - destruct (Qltb _ _); [apply sublist_keep|apply sublist_skip]; apply IH.
Qed.

(** Every point passed over is within 0.01 of the point kept last before
    it. *)
Lemma dedup_from_cover (lp : Q * Q) (rest : list (Q * Q)) (q : Q * Q) :
  In q rest ->
  exists k, In k (lp :: dedup_from lp rest)
            /\ Qabs (fst q - fst k) <= 1 # 100.
Proof.
  revert lp. induction rest as [|p rest IH]; intros lp; [contradiction|].
  cbn [dedup_from]. intros [<-|Hin].
  - destruct (Qltb (1 # 100) (Qabs (fst p - fst lp))) eqn:E.
    + exists p. split; [right; now left|].
      apply Qabs_Qle_condition. split; lra.
    + exists lp. split; [now left|]. now apply Qltb_ge.
  - destruct (Qltb (1 # 100) (Qabs (fst p - fst lp))) eqn:E.
    + destruct (IH p Hin) as (k & Hk & Hd). exists k.
      split; [right; exact Hk|exact Hd].
    + apply IH. exact Hin.
Qed.

Lemma sorted_strongly (l : list (Q * Q)) :
  Sorted x_le l -> StronglySorted x_le l.
Proof.
  apply Sorted_StronglySorted. intros a b c Hab Hbc.
  unfold x_le in *. eapply Qle_trans; eauto.
Qed.

Lemma dedup_from_gaps (lp : Q * Q) (rest : list (Q * Q)) :
  StronglySorted x_le (lp :: rest) ->
  Sorted x_gap (dedup_from lp rest) /\ HdRel x_gap lp (dedup_from lp rest).
Proof.
  revert lp. induction rest as [|p rest IH]; intros lp Hs;
    cbn [dedup_from]; [split; constructor|].
  apply StronglySorted_inv in Hs. destruct Hs as [Hrest Hall].
  destruct (Qltb (1 # 100) (Qabs (fst p - fst lp))) eqn:E.
  - destruct (IH p Hrest) as [Hsorted Hhd].
    split; [now constructor|]. constructor.
    apply Qltb_lt in E. inversion Hall as [|? ? Hle _]; subst.
    unfold x_le in Hle. unfold x_gap.
    rewrite Qabs_pos in E by lra. lra.
  - apply IH. apply StronglySorted_inv in Hrest. destruct Hrest as [Hr Hp].
    constructor; [exact Hr|]. now inversion Hall.
Qed.

End DedupFurther.

(** X9. Deduplication of a row only leaves points out: what it returns
    is the first point followed by some of the others in their order,
    each kept point more than 0.01 away in x from the one kept before
    it, and every point of the row is within 0.01 in x of a kept point.
    On a row without points the loop would raise [IndexError]. *)
Theorem dedup_keeps_a_cover (points : list (Q * Q)) :
  (points = [] -> dedup points = Raise IndexError)
  /\ (forall p0 rest, points = p0 :: rest ->
        exists kept,
          dedup points = Ok (p0 :: kept)
          /\ sublist kept rest
          /\ spaced p0 kept
          /\ (length (p0 :: kept) <= length points)%nat
          /\ forall q, In q points ->
               exists k, In k (p0 :: kept)
                         /\ (Qabs (fst q - fst k) <= 1 # 100)%Q).
Proof.
  split; [now intros ->|]. intros p0 rest ->.
  exists (dedup_from p0 rest). split; [apply dedup_cons|].
  split; [apply dedup_from_sublist|]. split; [apply dedup_from_spaced|].
  split.
  - cbn [length]. apply le_n_S.
    assert (Hsub : forall (l k : list (Q * Q)),
               sublist l k -> (length l <= length k)%nat).
    { induction 1; cbn [length]; lia. }
    apply Hsub, dedup_from_sublist.
  - intros q [<-|Hin].
    + exists p0. split; [now left|].
      apply Qabs_Qle_condition. split; lra.
    + now apply dedup_from_cover.
Qed.

Lemma dedup_keeps_a_cover_witness :
  exists kept,
    dedup [(1, 5); (1 + (1 # 200), 6); (2, 7)]%Q = Ok ((1, 5)%Q :: kept)
    /\ sublist kept [(1 + (1 # 200), 6); (2, 7)]%Q.
Proof.
  destruct (dedup_keeps_a_cover [(1, 5); (1 + (1 # 200), 6); (2, 7)]%Q)
    as [_ H].
  destruct (H (1, 5)%Q [(1 + (1 # 200), 6); (2, 7)]%Q eq_refl)
    as (kept & Hd & Hs & _).
  exists kept. split; [exact Hd|exact Hs].
Defined.

(** X10. On a row sorted by x, as the extractor returns its rows, the
    deduplicated points are strictly ascending in x with steps of more
    than 0.01: the samples of a row are in time order and no two share
    a position. *)
Theorem dedup_sorted_row_ascending (pg : page) (baselines : list Q)
    (rows : gmap Z (list (Q * Q))) (ri : Z) (points deduped : list (Q * Q)) :
  extract_ecg_waveform_rows pg baselines = Ok rows ->
  rows !! ri = Some points ->
  dedup points = Ok deduped ->
  Sorted x_gap deduped /\ deduped = row_deduped points.
Proof.
  intros Hrows Hrow Hd.
  destruct (extract_rows_lookup pg baselines) as (rows' & Hrows' & Hl).
  assert (rows' = rows) as -> by congruence.
  rewrite Hl in Hrow. case_decide; [|discriminate].
  injection Hrow as Hpoints.
  assert (Hs : StronglySorted x_le points).
  { rewrite <- Hpoints. apply sorted_strongly, sort_by_x_sorted. }
  destruct points as [|p0 rest]; [discriminate|].
  rewrite dedup_cons in Hd. injection Hd as <-.
  split; [|reflexivity].
  destruct (dedup_from_gaps p0 rest Hs) as [Hsorted Hhd].
  now constructor.
Qed.

Lemma dedup_sorted_row_ascending_witness :
  Sorted x_gap (row_deduped (sort_by_x (extract_points (items_of black_trace)))).
Proof.
  destruct (dedup_sorted_row_ascending (mkPage [black_trace]) sample_baselines
              (<[0%Z := sort_by_x (extract_points (items_of black_trace))]>
                 (empty_rows 4))
              0%Z (sort_by_x (extract_points (items_of black_trace)))
              (row_deduped (sort_by_x (extract_points (items_of black_trace)))))
    as [Hs _].
  - vm_compute. reflexivity.
  - vm_compute. reflexivity.
  - vm_compute. reflexivity.
  - exact Hs.
Defined.

(** ** Outcomes of [main] *)

Section MainFurther.
Local Open Scope Q_scope.

(** The trace of [write_edf], call by call. *)
Lemma write_edf_trace (signal : list Q) (lo hi : Q) :
  np_min signal = Ok lo -> np_max signal = Ok hi ->
  snd (write_edf signal [])
  = [ EdfWriter edf_path 1;
      setPatientName "Joel_Henderson";
      setSex 1;
      setBirthdate 1970 5 4;
      setStartdatetime 2026 2 13 22 42 0;
      setEquipment "KardiaMobile_1L";
      setRecordingAdditional "Normal_Sinus_Rhythm_HR_76_BPM";
      setLabel 0 "EKG I";
      setPhysicalDimension 0 "mV";
      setSamplefrequency 0 300;
      setTransducer 0 "KardiaMobile 1L electrode";
      setPrefilter 0 "Enhanced Filter, 50Hz mains";
      setPhysicalMinimum 0 (lo - (1 # 10));
      setPhysicalMaximum 0 (hi + (1 # 10));
      setDigitalMinimum 0 (-32768);
      setDigitalMaximum 0 32767;
      writeSamples [signal];
      close;
      print (OutEdfWritten edf_path);
      print OutFileSize ].
Proof.
  intros Hlo Hhi. unfold write_edf, mbind', emit, lift.
  rewrite Hlo, Hhi. reflexivity.
Qed.

Lemma filter_prints (f : event -> bool) (lines : list event) :
  (forall line, f (print line) = false) ->
  List.Forall (fun e => is_print e = true) lines ->
  List.filter f lines = [].
Proof.
  intros Hf. induction 1 as [|e lines He _ IH]; [reflexivity|].
  destruct e; try discriminate He. cbn [List.filter]. now rewrite Hf, IH.
Qed.

(** The four ways a run of [main] can go. *)
Lemma main_cases (doc : list page) :
  ((length doc < 2)%nat /\ main doc = (Raise IndexError, []))
  \/ (exists pg, doc !! 1%nat = Some pg /\ no_baseline_path pg
                 /\ main doc = (baseline_not_found, []))
  \/ (exists pg baselines rows lines,
        doc !! 1%nat = Some pg
        /\ extract_baselines pg = Ok (Some baselines)
        /\ extract_ecg_waveform_rows pg baselines = Ok rows
        /\ List.Forall (fun e => is_print e = true) lines
        /\ flat_map (row_signal rows baselines) (py_range (length baselines))
           = []
        /\ main doc = (Raise ValueError, lines))
  \/ (exists pg baselines rows lines lo hi,
        let signal :=
          flat_map (row_signal rows baselines)
                   (py_range (length baselines)) in
        doc !! 1%nat = Some pg
        /\ extract_baselines pg = Ok (Some baselines)
        /\ extract_ecg_waveform_rows pg baselines = Ok rows
        /\ List.Forall (fun e => is_print e = true) lines
        /\ In (print (OutTotalSamples (length signal))) lines
        /\ signal <> []
        /\ np_min signal = Ok lo /\ np_max signal = Ok hi
        /\ is_minimum lo signal /\ is_maximum hi signal
        /\ main doc = (Ok tt, lines ++ print (OutVoltageRange lo hi)
                                  :: snd (write_edf signal []))).
Proof.
  destruct (doc !! 1%nat) as [pg|] eqn:Hpg.
  2: { left. split; [apply lookup_ge_None in Hpg; lia|].
       unfold main, main_from, mbind', lift, list_item.
       change (Z.to_nat 1) with 1%nat. now rewrite Hpg. }
  right.
  destruct (extract_baselines_total pg) as [Hnone|[baselines Hbl]].
  { left. exists pg. split; [reflexivity|].
    apply extract_baselines_none in Hnone. split; [exact Hnone|].
    apply extract_baselines_none in Hnone.
    unfold main, main_from, mbind', lift, list_item.
    change (Z.to_nat 1) with 1%nat. now rewrite Hpg, Hnone. }
  right.
  assert (Hne : baselines <> []).
  { apply extract_baselines_some in Hbl. now destruct baselines. }
  destruct (main_run doc pg baselines Hpg Hbl Hne)
    as (rows & lines & Hrows & Hprints & Hnil & Hok & Htotal & _).
  destruct (flat_map (row_signal rows baselines)
                     (py_range (length baselines))) as [|v vs] eqn:Hsig.
  - left. exists pg, baselines, rows, lines. rewrite Hsig.
    repeat (split; [assumption || reflexivity|]). now apply Hnil.
  - right.
    destruct (py_min_spec (v :: vs)) as (lo & Hlo & Hmin); [discriminate|].
    destruct (py_max_spec (v :: vs)) as (hi & Hhi & Hmax); [discriminate|].
    exists pg, baselines, rows, lines, lo, hi. cbv zeta. rewrite Hsig.
    repeat (split; [assumption || reflexivity || discriminate|]).
    now apply Hok.
Qed.

End MainFurther.

(** X11. Whatever the document, [main] ends in one of four ways: it
    returns, or it raises [IndexError] (exactly when the document has
    fewer than two pages), the baseline-not-found [RuntimeError], or
    [ValueError]; it never ends with [TypeError], [KeyError] or
    [ZeroDivisionError].  Whenever it raises, no call was made on the EDF
    writer, so no output file exists. *)
Theorem main_raises_before_output (doc : list page) :
  (forall e tr, main doc = (Raise e, tr) ->
     main_exception e /\ sink_calls tr = [])
  /\ (fst (main doc) = Raise IndexError <-> (length doc < 2)%nat)
  /\ ((length doc < 2)%nat -> main doc = (Raise IndexError, [])).
Proof.
  destruct (main_cases doc)
    as [[Hlen Hm]|[(pg & Hpg & Hno & Hm)
       |[(pg & bl & rows & lines & Hpg & _ & _ & Hpr & _ & Hm)
        |(pg & bl & rows & lines & lo & hi & Hpg & _ & _ & _ & _ & _ & _
          & _ & _ & _ & Hm)]]];
    rewrite Hm; cbn [fst].
  - split; [|split; [tauto|reflexivity]].
    intros e tr [= <- <-]. split; [left; reflexivity|reflexivity].
  - apply lookup_lt_Some in Hpg. split; [|split].
    + intros e tr [= <- <-]. split; [right; left; reflexivity|reflexivity].
    + split; [discriminate|lia].
    + lia.
  - apply lookup_lt_Some in Hpg. split; [|split].
    + intros e tr [= <- <-]. split; [right; right; reflexivity|].
      now apply sink_calls_prints.
    + split; [discriminate|lia].
    + lia.
  - apply lookup_lt_Some in Hpg. split; [|split].
    + discriminate.
    + split; [discriminate|lia].
    + lia.
Qed.

Lemma main_raises_before_output_witness :
  (length [mkPage [grid_path]] < 2)%nat
  /\ main [mkPage [grid_path]] = (Raise IndexError, []).
Proof.
  split; [cbn [length]; lia|].
  apply (main_raises_before_output [mkPage [grid_path]]).
  cbn [length]. lia.
Defined.

(** X12. When [main] returns, the EDF file is whole: the first call on
    the writer is its construction and the last is [close]; the writer
    is constructed once and the samples are written once, as one channel
    that is not empty and has as many samples as the printed total; the
    sample frequency is 300 and the digital range is -32768 .. 32767. *)
Theorem main_writes_whole_file (doc : list page) (tr : list event) :
  main doc = (Ok tt, tr) ->
  exists signal,
    signal <> []
    /\ hd_error (sink_calls tr) = Some (EdfWriter edf_path 1)
    /\ last (sink_calls tr) = Some close
    /\ List.filter is_EdfWriter tr = [EdfWriter edf_path 1]
    /\ List.filter is_writeSamples tr = [writeSamples [signal]]
    /\ In (print (OutTotalSamples (length signal))) tr
    /\ In (setSamplefrequency 0 300) tr
    /\ In (setDigitalMinimum 0 (-32768)) tr
    /\ In (setDigitalMaximum 0 32767) tr.
Proof.
  intros Hmain.
  destruct (main_cases doc)
    as [[_ Hm]|[(pg & _ & _ & Hm)
       |[(pg & bl & rows & lines & _ & _ & _ & _ & _ & Hm)
        |(pg & bl & rows & lines & lo & hi & _ & _ & _ & Hpr & Htot & Hne
          & Hlo & Hhi & _ & _ & Hm)]]];
    rewrite Hm in Hmain; try discriminate Hmain.
  injection Hmain as <-.
  set (signal := flat_map (row_signal rows bl) (py_range (length bl))) in *.
  exists signal. split; [exact Hne|].
  rewrite (write_edf_trace signal lo hi Hlo Hhi).
  unfold sink_calls. rewrite !List.filter_app.
  rewrite !(filter_prints _ lines) by (exact Hpr || reflexivity).
  cbn [app List.filter is_print is_EdfWriter is_writeSamples negb hd_error].
  repeat split; try reflexivity.
  - apply in_or_app. now left.
  - apply in_or_app. right. cbn [In]. tauto.
  - apply in_or_app. right. cbn [In]. tauto.
  - apply in_or_app. right. cbn [In]. tauto.
Qed.

Lemma main_writes_whole_file_witness :
  exists signal,
    signal <> []
    /\ List.filter is_writeSamples (snd (main scenario_doc))
       = [writeSamples [signal]].
Proof.
  destruct (main_writes_whole_file scenario_doc (snd (main scenario_doc)))
    as (signal & Hne & _ & _ & _ & Hw & _).
  - vm_compute. reflexivity.
  - exists signal. split; [exact Hne|exact Hw].
Defined.



(** ** The two classification tests *)

(** X14. The test of the extractor is the test of the locator with 40
    in place of 4: every path the extractor collects also passes the
    locator's test.  In particular a path that is not skipped has at
    least 40 commands, so the later guard against a single command never
    fires. *)
Theorem collected_paths_pass_baseline_test (p : path) :
  (waveform_rule p -> baseline_rule p)
  /\ (waveform_skip_test (color_of p) (width_of p) (items_of p) = Ok false ->
      baseline_test (color_of p) (width_of p) (items_of p) = Ok true
      /\ (40 <= length (items_of p))%nat
      /\ (length (items_of p) =? 1)%nat = false).
Proof.
  assert (H : waveform_rule p -> baseline_rule p).
  { intros (Hc & Hw & Hn). split; [exact Hc|]. split; [exact Hw|lia]. }
  split; [exact H|].
  rewrite waveform_skip_total, baseline_test_total. intros [= Hskip].
  apply negb_false_iff in Hskip. apply waveform_ruleb_iff in Hskip.
  split; [f_equal; now apply baseline_ruleb_iff, H|].
  destruct Hskip as (_ & _ & Hn). split; [exact Hn|].
  apply Nat.eqb_neq. lia.
Qed.

Lemma collected_paths_pass_baseline_test_witness :
  waveform_rule black_trace /\ baseline_rule black_trace.
Proof.
  assert (H : waveform_rule black_trace)
    by (apply waveform_ruleb_iff; vm_compute; reflexivity).
  split; [exact H|].
  now apply (collected_paths_pass_baseline_test black_trace).
Defined.

(** ** Nothing lost, nothing doubled *)

Section Conservation.
Local Open Scope Q_scope.

Lemma flat_map_nil_const {A B} (l : list A) :
  flat_map (fun _ : A => @nil B) l = [].
Proof. induction l; auto. Qed.

Lemma flat_map_perm_pointwise {A B} (f g : A -> list B) (l : list A) :
  (forall a, In a l -> Permutation (f a) (g a)) ->
  Permutation (flat_map f l) (flat_map g l).
Proof.
  induction l as [|a l IH]; intros H; [reflexivity|]. cbn [flat_map].
  apply Permutation_app; [apply H; now left|].
  apply IH. intros b Hb. apply H. now right.
Qed.

Lemma flat_map_app_perm {A B} (f g : A -> list B) (l : list A) :
  Permutation (flat_map (fun a => f a ++ g a) l)
              (flat_map f l ++ flat_map g l).
Proof.
  induction l as [|a l IH]; [reflexivity|]. cbn [flat_map]. rewrite IH.
  rewrite <- !app_assoc. apply Permutation_app_head.
  rewrite !app_assoc. apply Permutation_app_tail.
  apply Permutation_app_comm.
Qed.

Lemma flat_map_swap {A B C} (f : A -> B -> list C) (la : list A)
    (lb : list B) :
  Permutation (flat_map (fun a => flat_map (f a) lb) la)
              (flat_map (fun b => flat_map (fun a => f a b) la) lb).
Proof.
  induction la as [|a la IH]; cbn [flat_map].
  - now rewrite flat_map_nil_const.
  - rewrite flat_map_app_perm. now apply Permutation_app_head.
Qed.

Lemma flat_map_same_on {A B} (f g : A -> list B) (l : list A) :
  (forall a, In a l -> f a = g a) -> flat_map f l = flat_map g l.
Proof.
  induction l as [|a l IH]; intros H; [reflexivity|]. cbn [flat_map].
  rewrite (H a) by now left. f_equal. apply IH. intros b Hb. apply H.
  now right.
Qed.

Lemma flat_map_pick {B} (n r : nat) (X : list B) :
  (r < n)%nat ->
  flat_map (fun ri => if (Z.of_nat r =? ri)%Z then X else []) (py_range n)
  = X.
Proof.
  induction n as [|n IH]; [lia|]. intros Hr.
  rewrite py_range_S, flat_map_app. cbn [flat_map]. rewrite app_nil_r.
  destruct (decide (r = n)) as [->|Hne].
  - rewrite Z.eqb_refl.
    rewrite (flat_map_same_on _ (fun _ => [])), flat_map_nil_const;
      [reflexivity|].
    intros ri Hin. destruct (Z.of_nat n =? ri)%Z eqn:E; [|reflexivity].
    apply Z.eqb_eq in E. subst ri. apply in_py_range in Hin. lia.
  - replace (Z.of_nat r =? Z.of_nat n)%Z with false
      by (symmetry; apply Z.eqb_neq; lia).
    rewrite app_nil_r. apply IH. lia.
Qed.

Lemma row_points_all_rows (baselines : list Q) (p : path) :
  flat_map (fun ri => row_points baselines ri p)
           (py_range (length baselines))
  = assigned_points baselines p.
Proof.
  unfold assigned_points. destruct baselines as [|b0 bs].
  - cbn [length py_range seq map flat_map]. rewrite nearest_row_nil.
    cbn [fst xfloat_lt]. now rewrite andb_false_r.
  - destruct (nearest_row_spec (centroid_y p) (b0 :: bs))
      as (r & d & Hrow & b & Hb & _); [discriminate|].
    assert (Hr : (r < length (b0 :: bs))%nat) by (eapply lookup_lt_Some; eauto).
    unfold row_points. rewrite Hrow. cbn [fst].
    replace (0 <=? Z.of_nat r)%Z with true by (symmetry; apply Z.leb_le; lia).
    rewrite andb_true_r.
    destruct (waveform_ruleb p); cbn [andb];
      [|apply flat_map_nil_const].
    destruct (xfloat_lt (Fin d) 80).
    + erewrite flat_map_ext; [apply (flat_map_pick _ r _ Hr)|].
      intros ri. now rewrite andb_true_r.
    + erewrite flat_map_ext; [apply flat_map_nil_const|].
      intros ri. now rewrite andb_false_r.
Qed.

End Conservation.

(** X15. The extractor loses no assigned point and doubles none: a path
    adds points to at most one row, and the rows taken together hold, up
    to order, exactly the points of the paths that are under the
    waveform rule and nearer than 80 to a baseline, each point as often
    as the path yields it. *)
Theorem rows_hold_assigned_points (paths : list path) (baselines : list Q) :
  Permutation (flat_map (row_of paths baselines)
                        (py_range (length baselines)))
              (flat_map (assigned_points baselines) paths)
  /\ (forall p ri rj, ri <> rj ->
        row_points baselines ri p = [] \/ row_points baselines rj p = []).
Proof.
  split.
  - transitivity (flat_map (fun ri => flat_map (row_points baselines ri) paths)
                           (py_range (length baselines))).
    + apply flat_map_perm_pointwise. intros ri Hri.
      apply in_py_range in Hri. rewrite row_of_sorted_flat by exact Hri.
      apply sort_by_x_perm.
    + rewrite (flat_map_swap (fun ri p => row_points baselines ri p)).
      apply flat_map_perm_pointwise. intros p _.
      now rewrite row_points_all_rows.
  - intros p ri rj Hne. unfold row_points.
    destruct (nearest_row (centroid_y p) baselines) as [m z].
    destruct (decide (z = ri)) as [->|Hz].
    + right. replace (ri =? rj)%Z with false
        by (symmetry; now apply Z.eqb_neq).
      now rewrite andb_false_r.
    + left. replace (z =? ri)%Z with false
        by (symmetry; now apply Z.eqb_neq).
      now rewrite andb_false_r.
Qed.

Lemma rows_hold_assigned_points_witness :
  row_points sample_baselines 0 black_trace = []
  \/ row_points sample_baselines 1 black_trace = [].
Proof.
  apply (rows_hold_assigned_points [black_trace] sample_baselines).
  discriminate.
Defined.

(** ** Where the samples come from *)

Section SampleProvenance.
Local Open Scope Q_scope.

Lemma sublist_In {A} (l k : list A) (a : A) :
  sublist l k -> In a l -> In a k.
Proof.
  induction 1 as [|b l k _ IH|b l k _ IH]; cbn [In]; [tauto| |];
    intros H; [right; auto|destruct H; auto].
Qed.

Lemma row_deduped_In (points : list (Q * Q)) (q : Q * Q) :
  In q (row_deduped points) -> In q points.
Proof.
  destruct points as [|p0 rest]; [contradiction|]. cbn [row_deduped].
  intros [<-|H]; [now left|right].
  eapply sublist_In; [apply dedup_from_sublist|exact H].
Qed.

(** The signal that a returning run writes. *)
Lemma main_written_signal (doc : list page) (tr : list event)
    (signal : list Q) :
  main doc = (Ok tt, tr) ->
  In (writeSamples [signal]) tr ->
  exists pg baselines rows,
    doc !! 1%nat = Some pg
    /\ extract_baselines pg = Ok (Some baselines)
    /\ extract_ecg_waveform_rows pg baselines = Ok rows
    /\ signal = flat_map (row_signal rows baselines)
                         (py_range (length baselines)).
Proof.
  intros Hmain Hw.
  destruct (main_cases doc)
    as [[_ Hm]|[(pg & _ & _ & Hm)
       |[(pg & bl & rows & lines & _ & _ & _ & _ & _ & Hm)
        |(pg & bl & rows & lines & lo & hi & Hpg & Hbl & Hrows & Hpr & _ & _
          & Hlo & Hhi & _ & _ & Hm)]]];
    rewrite Hm in Hmain; try discriminate Hmain.
  injection Hmain as <-. exists pg, bl, rows.
  split; [exact Hpg|]. split; [exact Hbl|]. split; [exact Hrows|].
  rewrite (write_edf_trace _ lo hi Hlo Hhi) in Hw.
  apply in_app_or in Hw. destruct Hw as [Hw|Hw].
  - pose proof (proj1 (List.Forall_forall _ _) Hpr _ Hw) as Hc.
    discriminate Hc.
  - cbn [In] in Hw.
    repeat (destruct Hw as [Hw|Hw]; [try discriminate Hw|]);
      [now injection Hw|contradiction].
Qed.

End SampleProvenance.

(** X16. [main] invents no sample: every sample of the signal it writes
    is (baseline - y) / 28.346 for a baseline the locator returned for
    the second page and the y of an endpoint of a line command of a
    path of that page that is pure black, thin and has at least 40
    commands. *)
Theorem samples_come_from_line_endpoints (doc : list page) (tr : list event)
    (signal : list Q) (v : Q) :
  main doc = (Ok tt, tr) ->
  In (writeSamples [signal]) tr ->
  In v signal ->
  exists pg baselines bl p q,
    doc !! 1%nat = Some pg
    /\ extract_baselines pg = Ok (Some baselines)
    /\ In bl baselines
    /\ In p (get_drawings pg) /\ waveform_rule p
    /\ In q (endpoints (items_of p))
    /\ v = ((bl - snd q) / (28346 # 1000))%Q.
Proof.
  intros Hmain Hw Hv.
  destruct (main_written_signal doc tr signal Hmain Hw)
    as (pg & baselines & rows & Hpg & Hbl & Hrows & ->).
  apply in_flat_map in Hv. destruct Hv as (ri & _ & Hv).
  unfold row_signal in Hv.
  destruct (rows !! ri) as [points|] eqn:Hrow; [|contradiction].
  destruct (baselines !! Z.to_nat ri) as [bl|] eqn:Hb; [|contradiction].
  apply in_map_iff in Hv. destruct Hv as (q & <- & Hq).
  apply row_deduped_In in Hq.
  destruct (extract_rows_lookup pg baselines) as (rows' & Hrows' & Hl).
  assert (rows' = rows) as -> by congruence.
  rewrite Hl in Hrow. case_decide; [|discriminate].
  injection Hrow as <-.
  apply (Permutation_in _ (sort_by_x_perm _)) in Hq.
  destruct (row_points_provenance _ _ _ _ Hq) as (p & Hp & Hrule & Hend).
  exists pg, baselines, bl, p, q.
  repeat (split; [assumption|]).
  split; [|split; [exact Hp|split; [exact Hrule|split; [exact Hend|]]]].
  - apply list_elem_of_In. eapply list_elem_of_lookup_2. exact Hb.
  - reflexivity.
Qed.

Lemma samples_come_from_line_endpoints_witness :
  exists pg baselines bl p q,
    scenario_doc !! 1%nat = Some pg
    /\ extract_baselines pg = Ok (Some baselines)
    /\ In bl baselines
    /\ In p (get_drawings pg) /\ waveform_rule p
    /\ In q (endpoints (items_of p))
    /\ ((inject_Z 100 - inject_Z 95) / (28346 # 1000))%Q
       = ((bl - snd q) / (28346 # 1000))%Q.
Proof.
  pose (tr := snd (main scenario_doc)).
  pose (signal := match nth 25 tr close with
                  | writeSamples [s] => s | _ => [] end).
  apply (samples_come_from_line_endpoints scenario_doc tr signal
           ((inject_Z 100 - inject_Z 95) / (28346 # 1000))%Q).
  - vm_compute. reflexivity.
  - vm_compute. do 25 right. left. reflexivity.
  - vm_compute. left. reflexivity.
Defined.
